(** * Face recognition core of the attendance management application

    A shallow embedding of the recognition pipeline of [src/face_recog.py]
    ([FaceService]) and of the decision flow of the [attendance_recognize]
    endpoint of [src/app.py]: per-frame prediction, majority vote over the
    frames, time-table lookup and the attendance ledger check. *)

From Stdlib Require Import List ZArith Lia Bool String Ascii.
From Stdlib Require Import Reals Lra Sorted Permutation.
Import ListNotations.

(** ** Majority vote over per-frame predictions ([attendance_recognize]) *)

Module Vote.

(** A per-frame prediction, the value returned by [predict_student_id]:
    a student id, or [None] for no match. *)
Definition verdict := option Z.

Definition verdict_eqb (a b : verdict) : bool :=
  match a, b with
  | Some x, Some y => Z.eqb x y
  | None, None => true
  | _, _ => false
  end.

(** [collections.Counter]: a dict from verdict to count, keys kept in the
    order of their first insertion. *)
Fixpoint counter_add (c : list (verdict * nat)) (v : verdict)
  : list (verdict * nat) :=
  match c with
  | [] => [(v, 1%nat)]
  | (k, n) :: c' =>
      if verdict_eqb k v then (k, S n) :: c' else (k, n) :: counter_add c' v
  end.

Definition Counter (preds : list verdict) : list (verdict * nat) :=
  fold_left counter_add preds [].

(** [max(items, key=count)]: the first item of largest count (an item
    replaces the current best only when its count is strictly larger). *)
Fixpoint max_first (best : verdict * nat) (rest : list (verdict * nat))
  : verdict * nat :=
  match rest with
  | [] => best
  | x :: rest' =>
      if Nat.ltb (snd best) (snd x) then max_first x rest' else max_first best rest'
  end.

(** [Counter.most_common(1)[0]] (the code reads it only for a non-empty
    counter). *)
Definition most_common_1 (c : list (verdict * nat)) : option (verdict * nat) :=
  match c with
  | [] => None
  | x :: rest => Some (max_first x rest)
  end.

(** The three outcomes of the vote: the JSON answers
    ['bad image frames'], ['face not recognized'], or a matched student. *)
Inductive vote_result :=
| BadFrames
| NotRecognized
| Matched (sid : Z).

(** Lines 566-578 of [attendance_recognize]. *)
Definition majority_vote (preds : list verdict) : vote_result :=
  match preds with
  | [] => BadFrames
  | _ =>
      match most_common_1 (Counter preds) with
      | Some (Some best_id, best_count) =>
          if Nat.leb best_count (List.length preds / 2) then NotRecognized
          else Matched best_id
      | _ => NotRecognized
      end
  end.

(** Number of frames carrying a given verdict. *)
Fixpoint count_verdict (v : verdict) (preds : list verdict) : nat :=
  match preds with
  | [] => 0
  | p :: ps => (if verdict_eqb v p then 1 else 0) + count_verdict v ps
  end.

End Vote.

(** ** The matcher: linear scan of [FaceService.predict_student_id]

    Embeddings are one-dimensional NumPy arrays; their shape is their
    length.  Arithmetic is modelled over the reals. *)

Module Matcher.

Open Scope R_scope.

Definition vec := list R.

(** [np.dot] of two arrays of the same shape. *)
Fixpoint dot (a b : vec) : R :=
  match a, b with
  | x :: a', y :: b' => x * y + dot a' b'
  | _, _ => 0
  end.

Fixpoint sum_sq (a : vec) : R :=
  match a with
  | [] => 0
  | x :: a' => x * x + sum_sq a'
  end.

(** [np.linalg.norm]. *)
Definition norm (a : vec) : R := sqrt (sum_sq a).

(** The [1e-8] added to the denominator. *)
Definition eps : R := / 100000000.

(** Lines 138-140: [1.0 - dot / (norm ref * norm e + 1e-8)]. *)
Definition cosine_dist (ref e : vec) : R :=
  1 - dot ref e / (norm ref * norm e + eps).

(** [ref - e] with NumPy broadcasting of one-dimensional arrays: equal
    lengths subtract pointwise, a length-1 operand is stretched, and any
    other pair raises [ValueError] ([None]). *)
Definition broadcast_sub (ref e : vec) : option vec :=
  if Nat.eqb (List.length ref) (List.length e) then
    Some (map (fun p => fst p - snd p) (combine ref e))
  else
    match ref, e with
    | [r0], _ => Some (map (fun y => r0 - y) e)
    | _, [e0] => Some (map (fun x => x - e0) ref)
    | _, _ => None
    end.

Inductive metric := Cosine | L2.

(** The body of the [try] at lines 137-144: the distance and its metric,
    or [None] when the body raises (and the [except] skips the pair). *)
Definition pair_distance (ref e : vec) : option (R * metric) :=
  if Nat.eqb (List.length ref) (List.length e) then Some (cosine_dist ref e, Cosine)
  else
    match broadcast_sub ref e with
    | Some d => Some (norm d, L2)
    | None => None
    end.

(** The loop variables [best_id], [best_score] ([None] stands for
    [float('inf')]) and [best_is_cosine]. *)
Record best := mkBest {
  best_id : option Z;
  best_score : option R;
  best_is_cosine : bool
}.

Definition best_init : best := mkBest None None false.

Definition below_best (d : R) (s : option R) : bool :=
  match s with
  | None => true
  | Some b => if Rlt_dec d b then true else false
  end.

(** Lines 135-150: the scan over the cache in its iteration order. *)
Fixpoint scan (c : list (Z * vec)) (e : vec) (b : best) : best :=
  match c with
  | [] => b
  | (sid, ref) :: c' =>
      match pair_distance ref e with
      | None => scan c' e b
      | Some (dist, m) =>
          if below_best dist (best_score b)
          then scan c' e (mkBest (Some sid) (Some dist)
                                (match m with Cosine => true | L2 => false end))
          else scan c' e b
      end
  end.

Definition score_of (s : option R) : R :=
  match s with Some x => x | None => 0 end.

(** Lines 152-162: the acceptance test on the winner. *)
Definition accept (threshold_nn threshold_fallback : R) (b : best) : option Z :=
  match best_id b with
  | None => None
  | Some id =>
      if best_is_cosine b then
        if Rlt_dec threshold_nn (score_of (best_score b)) then None else Some id
      else
        if Rlt_dec threshold_fallback (score_of (best_score b)) then None else Some id
  end.

(** Lines 131-162 of [predict_student_id], once the query embedding [e]
    and the cache [c] are known. *)
Definition match_embedding (threshold_nn threshold_fallback : R)
    (c : list (Z * vec)) (e : vec) : option Z :=
  accept threshold_nn threshold_fallback (scan c e best_init).

(** The default thresholds of [predict_student_id]. *)
Definition default_threshold_nn : R := 35 / 100.
Definition default_threshold_fallback : R := 6 / 10.

Definition threshold_for (threshold_nn threshold_fallback : R) (m : metric) : R :=
  match m with Cosine => threshold_nn | L2 => threshold_fallback end.

End Matcher.

(** ** The face service: extractor, embedding store and cache *)

Module Service.

Import Matcher.

(** Outcomes of [DeepFace.represent]: a list whose first element carries an
    ['embedding'], any other value, or an exception. *)
Inductive df_result :=
| DFEmbedding (v : vec)
| DFOther
| DFRaise.

(** Outcomes of [cv2.imdecode] on the bytes of an uploaded frame: an
    image, [None] for data that does not decode, or an exception (OpenCV's
    [!buf.empty()] assertion on a zero-byte buffer). *)
Inductive decode_result (image : Type) :=
| Decoded (img : image)
| DecodeNone
| DecodeRaise.

Arguments Decoded {image}.
Arguments DecodeNone {image}.
Arguments DecodeRaise {image}.

(** The world the service runs in: the optional capabilities detected at
    import time, the perception library, image decoding and the outcome of
    writes to the local directory and to the remote table. *)
Record Env (raw image : Type) := {
  has_cv2 : bool;
  has_deepface : bool;
  deepface_represent : image -> df_result;
  gray64 : image -> vec;            (* grayscale, 64x64, flattened, / 255 *)
  imread : string -> option image;  (* [cv2.imread] *)
  imdecode : raw -> decode_result image;  (* [cv2.imdecode] *)
  cwd : string;
  local_save_ok : bool;             (* [np.save] succeeds *)
  remote_ok : bool                  (* the Supabase calls succeed *)
}.

Arguments has_cv2 {raw image}.
Arguments has_deepface {raw image}.
Arguments deepface_represent {raw image}.
Arguments gray64 {raw image}.
Arguments imread {raw image}.
Arguments imdecode {raw image}.
Arguments cwd {raw image}.
Arguments local_save_ok {raw image}.
Arguments remote_ok {raw image}.

(** Durable and in-memory state of the embeddings: the files
    [data/embeddings/<id>.npy], the Supabase table [face_embeddings] when a
    client is configured, and [self._emb_cache]. *)
Record Store := mkStore {
  files : list (Z * vec);
  table : option (list (Z * vec));
  emb_cache : option (list (Z * vec))
}.

(** Python dict assignment [d[k] = v]: overwrite in place, or append. *)
Fixpoint dict_set {V : Type} (d : list (Z * V)) (k : Z) (v : V) : list (Z * V) :=
  match d with
  | [] => [(k, v)]
  | (k', v') :: d' => if Z.eqb k' k then (k, v) :: d' else (k', v') :: dict_set d' k v
  end.

Definition dict_remove {V : Type} (d : list (Z * V)) (k : Z) : list (Z * V) :=
  filter (fun p => negb (Z.eqb (fst p) k)) d.

Definition dict_of {V : Type} (rows : list (Z * V)) : list (Z * V) :=
  fold_left (fun d p => dict_set d (fst p) (snd p)) rows [].

Section WithEnv.

Context {raw image : Type} (env : Env raw image).

(** [FaceService._compute_embedding]. *)
Definition compute_embedding (img : image) : option vec :=
  if negb (has_cv2 env) then None
  else if has_deepface env then
    match deepface_represent env img with
    | DFEmbedding v => Some v
    | DFRaise => None
    | DFOther => Some (gray64 env img)
    end
  else Some (gray64 env img).

(** The cache rebuild at lines 102-129: the remote table when a client is
    configured and answers (rows with an empty embedding skipped), the local
    files otherwise. *)
Definition load_cache (st : Store) : list (Z * vec) :=
  match table st with
  | Some rows =>
      if remote_ok env
      then dict_of (filter (fun p => negb (Nat.eqb (List.length (snd p)) 0)) rows)
      else dict_of (files st)
  | None => dict_of (files st)
  end.

(** [FaceService.predict_student_id] with the given thresholds. *)
Definition predict (threshold_nn threshold_fallback : R) (st : Store) (frame : image)
  : option Z * Store :=
  match compute_embedding frame with
  | None => (None, st)
  | Some e =>
      let c := match emb_cache st with Some c => c | None => load_cache st end in
      (match_embedding threshold_nn threshold_fallback c e,
       mkStore (files st) (table st) (Some c))
  end.

(** [predict_student_id(img)] with its default thresholds. *)
Definition predict_student_id (st : Store) (frame : image) : option Z * Store :=
  predict default_threshold_nn default_threshold_fallback st frame.

(** The path mapping at lines 59-62: a served path ["/uploads/.."] is
    resolved against the working directory. *)
Definition resolve_path (img_path : string) : string :=
  match img_path with
  | String "/"%char rest => (cwd env ++ "/" ++ rest)%string
  | _ => img_path
  end.

(** [FaceService.enroll_from_path]. *)
Definition enroll_from_path (st : Store) (img_path : string) (student_id : Z)
  : bool * Store :=
  if negb (has_cv2 env) || String.eqb img_path "" then (false, st)
  else
    match imread env (resolve_path img_path) with
    | None => (false, st)
    | Some img =>
        match compute_embedding img with
        | None => (false, st)
        | Some e =>
            let st1 := if local_save_ok env
                       then mkStore (dict_set (files st) student_id e) (table st) (emb_cache st)
                       else st in
            let st2 := match table st1 with
                       | None => st1
                       | Some t =>
                           if remote_ok env
                           then mkStore (files st1) (Some (dict_set t student_id e)) None
                           else st1
                       end in
            (true, st2)
        end
    end.

(** Step 4 of [delete_student_profile] in [src/app.py]: the embedding file
    is unlinked and the remote rows are deleted; the other steps touch only
    the relational tables. *)
Definition delete_student_embedding (st : Store) (student_id : Z) : Store :=
  let t' := match table st with
            | None => None
            | Some t => if remote_ok env then Some (dict_remove t student_id) else Some t
            end in
  mkStore (dict_remove (files st) student_id) t' (emb_cache st).



End WithEnv.

End Service.

(** ** Time-table lookup and attendance ledger ([attendance_recognize]) *)

Module Schedule.

Open Scope string_scope.

(** A row of [student_timetables]; times are the stored ['HH:MM'] strings
    and are compared as strings, as the code does. *)
Record Slot := mkSlot {
  slot_student : Z;
  slot_weekday : Z;
  start_time : string;
  end_time : string;
  slot_subject : Z
}.

(** [ORDER BY start_time]: insertion of a row after the rows whose start
    time is not larger. *)
Fixpoint insert_by_start (s : Slot) (rows : list Slot) : list Slot :=
  match rows with
  | [] => [s]
  | r :: rs =>
      if String.ltb (start_time s) (start_time r) then s :: r :: rs
      else r :: insert_by_start s rs
  end.

Fixpoint sort_by_start (rows : list Slot) : list Slot :=
  match rows with
  | [] => []
  | r :: rs => insert_by_start r (sort_by_start rs)
  end.

(** [StudentTimetable.query.filter_by(student_id=.., weekday=..)
    .order_by(StudentTimetable.start_time).all()]. *)
Definition timetable_query (student_id weekday : Z) (slots : list Slot) : list Slot :=
  sort_by_start
    (filter (fun r => Z.eqb (slot_student r) student_id && Z.eqb (slot_weekday r) weekday)
            slots).

(** [r.start_time <= now_str <= r.end_time]. *)
Definition slot_contains (now_str : string) (r : Slot) : bool :=
  String.leb (start_time r) now_str && String.leb now_str (end_time r).

(** The loop at lines 603-607: the first row containing the time. *)
Fixpoint find_slot (now_str : string) (rows : list Slot) : option Slot :=
  match rows with
  | [] => None
  | r :: rs => if slot_contains now_str r then Some r else find_slot now_str rs
  end.

(** The schedule resolver: the current slot of a student. *)
Definition resolve (student_id weekday : Z) (now_str : string) (slots : list Slot)
  : option Slot :=
  find_slot now_str (timetable_query student_id weekday slots).

(** The clock reading [datetime.now()]: its date (as a day number), its
    weekday and its ['%H:%M'] rendering. *)
Record Now := mkNow {
  now_date : Z;
  now_weekday : Z;
  now_str : string
}.

(** A row of the [attendance] table, as far as the duplicate check reads it. *)
Record AttRecord := mkAtt {
  att_student : Z;
  att_subject : option Z;
  att_date : Z
}.

(** The relational data the flow reads. *)
Record Db := mkDb {
  students : list Z;
  subjects : list Z;
  timetable : list Slot
}.

(** The JSON answers of the flow after a matched student. *)
Inductive decision :=
| StudentNotFound
| AttendanceMarked (sid subj : Z)
| AlreadyMarked (sid subj : Z)
| NoMatchingClass (sid : Z).

Definition is_record_of (sid subj date : Z) (a : AttRecord) : bool :=
  Z.eqb (att_student a) sid
  && match att_subject a with Some s => Z.eqb s subj | None => false end
  && Z.eqb (att_date a) date.

(** Lines 579-650 of [attendance_recognize]: from the matched student to the
    ledger; the ledger grows at its end when a record is added. *)
Definition resolve_and_decide (db : Db) (ledger : list AttRecord) (student_id : Z)
    (now : Now) : decision * list AttRecord :=
  if negb (existsb (Z.eqb student_id) (students db)) then (StudentNotFound, ledger)
  else
    match resolve student_id (now_weekday now) (now_str now) (timetable db) with
    | Some r =>
        let subject_id := slot_subject r in
        if negb (Z.eqb subject_id 0) && existsb (Z.eqb subject_id) (subjects db) then
          if existsb (is_record_of student_id subject_id (now_date now)) ledger
          then (AlreadyMarked student_id subject_id, ledger)
          else (AttendanceMarked student_id subject_id,
                app ledger [mkAtt student_id (Some subject_id) (now_date now)])
        else (NoMatchingClass student_id, ledger)
    | None => (NoMatchingClass student_id, ledger)
    end.

(** Number of ledger records for a (student, subject, date) triple. *)
Definition count_records (sid subj date : Z) (ledger : list AttRecord) : nat :=
  List.length (filter (is_record_of sid subj date) ledger).

End Schedule.

(** ** The recognition endpoint and manual marking ([src/app.py]) *)

Module Endpoint.

Import Matcher Service Schedule.



(** Truthiness of an optional form integer ([request.form.get(.., type=int)]):
    [None] and [0] are falsy. *)
Definition truthy_int (x : option Z) : bool :=
  match x with Some z => negb (Z.eqb z 0) | None => false end.

Inductive manual_result :=
| MUnauthorized     (* 403 'unauthorized' *)
| MMissingFields    (* 400 'Missing required fields' *)
| MMarked           (* 'Attendance marked successfully' *)
| MServerError.     (* 500 after [db.session.rollback()] *)

(** [manual_attendance] when the commit succeeds: the session check, the
    required-fields check [all([student_id, day is not None, subject_id])],
    then one new attendance row for today. *)
Definition manual_attendance (authorized : bool) (student_id day subject_id : option Z)
    (ledger : list AttRecord) (now : Now) : manual_result * list AttRecord :=
  if negb authorized then (MUnauthorized, ledger)
  else
    match student_id, day, subject_id with
    | Some sid, Some _, Some subj =>
        if truthy_int (Some sid) && truthy_int (Some subj)
        then (MMarked, app ledger [mkAtt sid (Some subj) (now_date now)])
        else (MMissingFields, ledger)
    | _, _, _ => (MMissingFields, ledger)
    end.

(** The whole [manual_attendance] handler: when [db.session.commit()]
    raises ([commit_ok = false]: an id out of the column's range, a foreign
    key without its row, a lost connection), the [except] rolls back and
    answers 500, and no row is added.  The push to Supabase is wrapped in
    its own [try]/[except: pass] and changes no answer. *)
Definition manual_attendance_handler (commit_ok authorized : bool)
    (student_id day subject_id : option Z) (ledger : list AttRecord) (now : Now)
  : manual_result * list AttRecord :=
  match manual_attendance authorized student_id day subject_id ledger now with
  | (MMarked, ledger') => if commit_ok then (MMarked, ledger') else (MServerError, ledger)
  | r => r
  end.

End Endpoint.

(** ** [scripts/upload_embeddings_to_supabase.py] *)

Module UploadScript.

Import Matcher Service.

(** The upload loop over the local embedding files (those whose stem is an
    integer and that load), upserting each into the remote table by
    [student_id] and counting the successful upserts.  [None] when no
    remote client is configured (the script exits with status 1). *)
Definition upload_embeddings {raw image : Type} (env : Env raw image) (st : Store)
  : option (nat * Store) :=
  match table st with
  | None => None
  | Some t =>
      let step (acc : nat * list (Z * vec)) (f : Z * vec) :=
        if remote_ok env then (S (fst acc), dict_set (snd acc) (fst f) (snd f)) else acc in
      let (count, t') := fold_left step (files st) (0%nat, t) in
      Some (count, mkStore (files st) (Some t') (emb_cache st))
  end.

End UploadScript.

(** ** [scripts/migrate_sqlite_to_postgres.py] *)

Module MigrateScript.

(** The batch size of [copy_db]. *)
Definition batch_size : nat := 200.

(** The row loop of [copy_db] for one table, from the current [batch]:
    [batch.append(row)], and when [len(batch) >= 200] the batch is inserted
    and a new one started; after the loop the last batch is inserted when
    non-empty.  [insert_ok] is the outcome of [conn_tgt.execute(insert(..),
    batch)]; a failing insert raises [SQLAlchemyError], which ends the
    table's copy.  The result is the batches executed, in order (the failing
    one last), and whether the copy ended without error. *)
Fixpoint copy_loop {A : Type} (insert_ok : list A -> bool) (batch : list A) (rows : list A)
  : list (list A) * bool :=
  match rows with
  | [] =>
      match batch with
      | [] => ([], true)
      | _ => ([batch], insert_ok batch)
      end
  | row :: rows' =>
      let batch' := app batch [row] in
      if Nat.leb batch_size (List.length batch') then
        if insert_ok batch' then
          let (executed, clean) := copy_loop insert_ok [] rows' in
          (batch' :: executed, clean)
        else ([batch'], false)
      else copy_loop insert_ok batch' rows'
  end.

(** The copy of one table ([if not rows: continue] gives no insert). *)
Definition copy_table {A : Type} (insert_ok : list A -> bool) (rows : list A)
  : list (list A) * bool :=
  copy_loop insert_ok [] rows.

End MigrateScript.

(** ** Concrete worlds used to evaluate the service *)

Module Fixtures.

Import Matcher Service.

(** OpenCV and DeepFace present; image [0] has the embedding [[1]], every
    other image makes DeepFace raise; every path reads image [0].  A frame
    is the list of its bytes: the empty buffer makes [cv2.imdecode] raise,
    the one-byte frame [[n]] stands for an encoding of image [n], and any
    longer frame for data that does not decode. *)
Definition world (save_ok remote : bool) : Env (list nat) nat := {|
  has_cv2 := true;
  has_deepface := true;
  deepface_represent := fun n => if Nat.eqb n 0 then DFEmbedding [1%R] else DFRaise;
  gray64 := fun _ => [0%R];
  imread := fun _ => Some 0%nat;
  imdecode := fun bytes => match bytes with
                           | [] => DecodeRaise
                           | [n] => Decoded n
                           | _ => DecodeNone
                           end;
  cwd := "/srv/app";
  local_save_ok := save_ok;
  remote_ok := remote
|}.

End Fixtures.

(** * Properties *)

(** ** The majority vote *)

Module VoteFacts.

Import Vote.

Lemma verdict_eqb_spec (a b : verdict) : verdict_eqb a b = true <-> a = b.
Proof.
  destruct a as [x|], b as [y|]; simpl; split; intro H; try congruence.
  - apply Z.eqb_eq in H; now subst.
  - inversion H; subst; apply Z.eqb_refl.
Qed.

Lemma verdict_eqb_sym (a b : verdict) : verdict_eqb a b = verdict_eqb b a.
Proof.
  destruct a as [x|], b as [y|]; simpl; auto. apply Z.eqb_sym.
Qed.

(** The count a counter holds for a key (0 when absent). *)
Fixpoint counter_get (c : list (verdict * nat)) (k : verdict) : nat :=
  match c with
  | [] => 0
  | (k', n) :: c' => if verdict_eqb k' k then n else counter_get c' k
  end.

Lemma counter_add_get c v k :
  counter_get (counter_add c v) k = (counter_get c k + if verdict_eqb v k then 1 else 0)%nat.
Proof.
  induction c as [|[k' n] c IH]; simpl.
  - rewrite verdict_eqb_sym. destruct (verdict_eqb k v); lia.
  - destruct (verdict_eqb k' v) eqn:Hkv; simpl.
    + apply verdict_eqb_spec in Hkv; subst.
      destruct (verdict_eqb v k); lia.
    + rewrite IH. destruct (verdict_eqb k' k) eqn:Hkk; auto.
      apply verdict_eqb_spec in Hkk; subst.
      rewrite verdict_eqb_sym, Hkv. lia.
Qed.

Lemma counter_add_keys c v k :
  In k (map fst (counter_add c v)) <-> In k (map fst c) \/ k = v.
Proof.
  induction c as [|[k' n] c IH]; simpl.
  - intuition.
  - destruct (verdict_eqb k' v) eqn:Hkv; simpl.
    + apply verdict_eqb_spec in Hkv; subst. intuition.
    + rewrite IH. intuition.
Qed.

Lemma counter_add_nodup c v :
  NoDup (map fst c) -> NoDup (map fst (counter_add c v)).
Proof.
  induction c as [|[k' n] c IH]; simpl; intro Hnd.
  - constructor; [simpl; tauto | constructor].
  - inversion Hnd as [|? ? Hnin Hnd']; subst.
    destruct (verdict_eqb k' v) eqn:Hkv; simpl; constructor; auto.
    rewrite counter_add_keys. intros [H|H]; [contradiction|].
    subst. rewrite (proj2 (verdict_eqb_spec v v) eq_refl) in Hkv. discriminate.
Qed.

Lemma fold_counter_get ps c k :
  counter_get (fold_left counter_add ps c) k = (counter_get c k + count_verdict k ps)%nat.
Proof.
  revert c. induction ps as [|p ps IH]; intro c; simpl.
  - lia.
  - rewrite IH, counter_add_get, (verdict_eqb_sym p k). lia.
Qed.

Lemma fold_counter_nodup ps c :
  NoDup (map fst c) -> NoDup (map fst (fold_left counter_add ps c)).
Proof.
  revert c. induction ps as [|p ps IH]; intros c H; simpl; auto.
  apply IH, counter_add_nodup, H.
Qed.

Lemma Counter_get ps k : counter_get (Counter ps) k = count_verdict k ps.
Proof. unfold Counter. rewrite fold_counter_get. reflexivity. Qed.

Lemma Counter_nodup ps : NoDup (map fst (Counter ps)).
Proof. apply fold_counter_nodup. constructor. Qed.

Lemma counter_get_in c k n :
  NoDup (map fst c) -> In (k, n) c -> counter_get c k = n.
Proof.
  induction c as [|[k' n'] c IH]; simpl; intros Hnd Hin; [contradiction|].
  inversion Hnd as [|? ? Hnin Hnd']; subst.
  destruct Hin as [Heq|Hin].
  - inversion Heq; subst. now rewrite (proj2 (verdict_eqb_spec k k) eq_refl).
  - destruct (verdict_eqb k' k) eqn:Hkk.
    + apply verdict_eqb_spec in Hkk; subst.
      exfalso. apply Hnin. apply (in_map fst) in Hin. exact Hin.
    + auto.
Qed.

Lemma counter_get_pos c k :
  (0 < counter_get c k)%nat -> In (k, counter_get c k) c.
Proof.
  induction c as [|[k' n'] c IH]; simpl; intro H; [lia|].
  destruct (verdict_eqb k' k) eqn:Hkk.
  - apply verdict_eqb_spec in Hkk; subst. now left.
  - right. auto.
Qed.

Lemma max_first_spec best rest :
  In (max_first best rest) (best :: rest)
  /\ forall x, In x (best :: rest) -> (snd x <= snd (max_first best rest))%nat.
Proof.
  revert best. induction rest as [|x rest IH]; intro best; simpl.
  - split; [now left|]. intros y [H|[]]; subst; lia.
  - destruct (Nat.ltb (snd best) (snd x)) eqn:Hlt.
    + apply Nat.ltb_lt in Hlt. destruct (IH x) as [Hin Hmax]. split.
      * simpl in Hin. tauto.
      * intros y [Hy|Hy]; [subst; specialize (Hmax x (or_introl eq_refl)); lia|].
        apply Hmax. exact Hy.
    + apply Nat.ltb_ge in Hlt. destruct (IH best) as [Hin Hmax]. split.
      * simpl in Hin. tauto.
      * intros y [Hy|[Hy|Hy]].
        -- apply Hmax. now left.
        -- subst. specialize (Hmax best (or_introl eq_refl)). lia.
        -- apply Hmax. now right.
Qed.

(** The entry [most_common(1)] returns holds the count of its key, and no
    key has a larger count. *)
Lemma most_common_1_spec ps b m :
  most_common_1 (Counter ps) = Some (b, m) ->
  m = count_verdict b ps /\ forall k, (count_verdict k ps <= m)%nat.
Proof.
  unfold most_common_1. destruct (Counter ps) as [|x rest] eqn:Hc; [discriminate|].
  intro H. inversion H as [Hm]. destruct (max_first_spec x rest) as [Hin Hmax].
  rewrite Hm in Hin, Hmax. split.
  - rewrite <- (Counter_get ps b). rewrite Hc.
    symmetry. apply counter_get_in; auto. rewrite <- Hc. apply Counter_nodup.
  - intro k. destruct (count_verdict k ps) eqn:Hk; [lia|].
    rewrite <- (Counter_get ps k) in Hk.
    assert (Hin' : In (k, counter_get (Counter ps) k) (Counter ps))
      by (apply counter_get_pos; lia).
    rewrite Hk in Hin'. rewrite Hc in Hin'.
    apply (Hmax _ Hin').
Qed.

Lemma most_common_1_nonempty ps :
  ps <> [] -> exists b m, most_common_1 (Counter ps) = Some (b, m).
Proof.
  intro Hne. destruct ps as [|p ps']; [congruence|].
  assert (Hpos : (0 < counter_get (Counter (p :: ps')) p)%nat).
  { rewrite Counter_get. simpl. rewrite (proj2 (verdict_eqb_spec p p) eq_refl). lia. }
  apply counter_get_pos in Hpos.
  unfold most_common_1. destruct (Counter (p :: ps')) as [|x rest]; [contradiction|].
  destruct (max_first x rest) as [b m]. eauto.
Qed.

Lemma count_verdict_two a b ps :
  a <> b -> (count_verdict a ps + count_verdict b ps <= List.length ps)%nat.
Proof.
  intro Hab. induction ps as [|p ps IH]; simpl; [lia|].
  destruct (verdict_eqb a p) eqn:Ha, (verdict_eqb b p) eqn:Hb; try lia.
  apply verdict_eqb_spec in Ha, Hb. congruence.
Qed.

End VoteFacts.

Module VoteClaims.

Import Vote VoteFacts.

(** C1: for a non-empty list of per-frame verdicts the vote accepts a
    student [a] exactly when [a] (a real student, not "no match") has a
    count strictly greater than [n / 2]; the empty list is rejected at once
    with "bad image frames"; and [A, A, B] accepts [A] while [A, B, none] and
    [A, A, B, B] are rejected. *)
Theorem majority_vote_strict_majority :
  majority_vote [] = BadFrames
  /\ (forall (ps : list verdict) (a : Z), ps <> [] ->
        (majority_vote ps = Matched a
         <-> (List.length ps / 2 < count_verdict (Some a) ps)%nat))
  /\ (forall A B : Z, A <> B ->
        majority_vote [Some A; Some A; Some B] = Matched A
        /\ majority_vote [Some A; Some B; None] = NotRecognized
        /\ majority_vote [Some A; Some A; Some B; Some B] = NotRecognized).
Proof.
  split; [reflexivity|]. split.
  - intros ps a Hne.
    assert (Hmv : majority_vote ps =
              match most_common_1 (Counter ps) with
              | Some (Some best_id, best_count) =>
                  if Nat.leb best_count (List.length ps / 2) then NotRecognized
                  else Matched best_id
              | _ => NotRecognized
              end) by (destruct ps; [congruence|reflexivity]).
    rewrite Hmv. destruct (most_common_1_nonempty ps Hne) as (b & m & Hmc).
    rewrite Hmc. destruct (most_common_1_spec ps b m Hmc) as [Hm Hmax].
    split.
    + destruct b as [b|]; [|discriminate].
      destruct (Nat.leb m (List.length ps / 2)) eqn:Hle; [discriminate|].
      intro H; inversion H; subst. apply Nat.leb_gt in Hle. exact Hle.
    + intro Hgt.
      assert (Hb : b = Some a).
      { assert (Hdec : {b = Some a} + {b <> Some a})
          by (decide equality; apply Z.eq_dec).
        destruct Hdec as [E|E]; [exact E|].
        pose proof (count_verdict_two b (Some a) ps E) as Hsum.
        specialize (Hmax (Some a)). exfalso.
        pose proof (Nat.div_mod (List.length ps) 2 ltac:(lia)).
        pose proof (Nat.mod_upper_bound (List.length ps) 2 ltac:(lia)). lia. }
      subst b. destruct (Nat.leb m (List.length ps / 2)) eqn:Hle; [|reflexivity].
      apply Nat.leb_le in Hle. specialize (Hmax (Some a)). lia.
  - intros A B HAB.
    assert (E1 : Z.eqb A B = false) by (apply Z.eqb_neq; auto).
    assert (E2 : Z.eqb B A = false) by (apply Z.eqb_neq; auto).
    repeat split; do 4 (cbn -[Z.eqb]; rewrite ?Z.eqb_refl, ?E1, ?E2); reflexivity.
Qed.

(** A concrete instance of C1. *)
Lemma majority_vote_strict_majority_witness :
  majority_vote [Some 4%Z; Some 4%Z; Some 9%Z] = Matched 4
  /\ ([Some 4%Z; Some 4%Z; Some 9%Z] <> []
      /\ (List.length [Some 4%Z; Some 4%Z; Some 9%Z] / 2
          < count_verdict (Some 4%Z) [Some 4%Z; Some 4%Z; Some 9%Z])%nat)
  /\ majority_vote [Some 4%Z; Some 9%Z; None] = NotRecognized.
Proof.
  destruct majority_vote_strict_majority as (_ & Hiff & Hex).
  split.
  - apply (Hiff [Some 4%Z; Some 4%Z; Some 9%Z] 4%Z); [discriminate|vm_compute; lia].
  - split; [split; [discriminate|vm_compute; lia]|].
    apply (Hex 4%Z 9%Z); discriminate.
Defined.

End VoteClaims.

(** ** The matcher *)

Module MatcherFacts.

Import Matcher.
Open Scope R_scope.

Definition is_cosine (m : metric) : bool :=
  match m with Cosine => true | L2 => false end.

(** A candidate of the scan: an entry of the cache whose comparison with
    the query does not raise. *)
Definition candidate (c : list (Z * vec)) (e : vec) (sid : Z) (d : R) (m : metric) : Prop :=
  exists ref, In (sid, ref) c /\ pair_distance ref e = Some (d, m).

Lemma below_best_some d s : below_best d (Some s) = true <-> d < s.
Proof. simpl. destruct (Rlt_dec d s); split; intro; auto; congruence. Qed.

(** The scan either keeps its start value, when no candidate beats it, or
    ends on a candidate that beats it and is no farther than any other. *)
Lemma scan_spec c e b :
  (scan c e b = b
   /\ forall sid d m, candidate c e sid d m -> below_best d (best_score b) = false)
  \/ (exists sid d m,
        candidate c e sid d m
        /\ scan c e b = mkBest (Some sid) (Some d) (is_cosine m)
        /\ below_best d (best_score b) = true
        /\ forall sid' d' m', candidate c e sid' d' m' -> d <= d').
Proof.
  revert b. induction c as [|[sid ref] c IH]; intro b; simpl.
  - left. split; [reflexivity|]. intros sid d m (ref & [] & _).
  - destruct (pair_distance ref e) as [[d m]|] eqn:Hpd.
    + destruct (below_best d (best_score b)) eqn:Hbb.
      * right. destruct (IH (mkBest (Some sid) (Some d) (is_cosine m)))
          as [[Hs Hnone] | (sw & dw & mw & Hc & Hs & Hbw & Hmin)]; simpl in *.
        -- exists sid, d, m. split; [exists ref; split; [now left|exact Hpd]|].
           split; [destruct m; exact Hs|]. split; [exact Hbb|].
           intros sid' d' m' (ref' & [Heq|Hin] & Hp').
           ++ inversion Heq; subst. rewrite Hpd in Hp'. inversion Hp'; lra.
           ++ specialize (Hnone sid' d' m' (ex_intro _ ref' (conj Hin Hp'))).
              destruct (Rlt_dec d' d); [discriminate|lra].
        -- apply below_best_some in Hbw.
           exists sw, dw, mw. split.
           { destruct Hc as (r & Hin & Hp). exists r; split; [now right|exact Hp]. }
           split; [destruct m; exact Hs|]. split.
           { destruct (best_score b) as [s|]; [|reflexivity].
             apply below_best_some in Hbb. apply below_best_some. lra. }
           intros sid' d' m' (ref' & [Heq|Hin] & Hp').
           ++ inversion Heq; subst. rewrite Hpd in Hp'. inversion Hp'; lra.
           ++ apply (Hmin sid' d' m'). exists ref'; split; assumption.
      * destruct (IH b) as [[Hs Hnone] | (sw & dw & mw & Hc & Hs & Hbw & Hmin)].
        -- left. split; [exact Hs|].
           intros sid' d' m' (ref' & [Heq|Hin] & Hp').
           ++ inversion Heq; subst. rewrite Hpd in Hp'. inversion Hp'; subst. exact Hbb.
           ++ apply (Hnone sid' d' m'). exists ref'; split; assumption.
        -- right. exists sw, dw, mw. split.
           { destruct Hc as (r & Hin & Hp). exists r; split; [now right|exact Hp]. }
           split; [exact Hs|]. split; [exact Hbw|].
           intros sid' d' m' (ref' & [Heq|Hin] & Hp').
           ++ inversion Heq; subst. rewrite Hpd in Hp'. inversion Hp'; subst.
              destruct (best_score b) as [s|]; [|discriminate].
              apply below_best_some in Hbw.
              simpl in Hbb. destruct (Rlt_dec d' s); [discriminate|lra].
           ++ apply (Hmin sid' d' m'). exists ref'; split; assumption.
    + destruct (IH b) as [[Hs Hnone] | (sw & dw & mw & Hc & Hs & Hbw & Hmin)].
      * left. split; [exact Hs|].
        intros sid' d' m' (ref' & [Heq|Hin] & Hp').
        -- inversion Heq; subst. congruence.
        -- apply (Hnone sid' d' m'). exists ref'; split; assumption.
      * right. exists sw, dw, mw. split.
        { destruct Hc as (r & Hin & Hp). exists r; split; [now right|exact Hp]. }
        split; [exact Hs|]. split; [exact Hbw|].
        intros sid' d' m' (ref' & [Heq|Hin] & Hp').
        -- inversion Heq; subst. congruence.
        -- apply (Hmin sid' d' m'). exists ref'; split; assumption.
Qed.

(** From the initial value: no winner when nothing is comparable, else a
    nearest candidate. *)
Lemma scan_init_spec c e :
  (scan c e best_init = best_init /\ forall sid d m, ~ candidate c e sid d m)
  \/ (exists sid d m,
        candidate c e sid d m
        /\ scan c e best_init = mkBest (Some sid) (Some d) (is_cosine m)
        /\ forall sid' d' m', candidate c e sid' d' m' -> d <= d').
Proof.
  destruct (scan_spec c e best_init) as [[Hs Hn] | (sid & d & m & Hc & Hs & _ & Hmin)].
  - left. split; [exact Hs|]. intros sid d m Hc. specialize (Hn sid d m Hc).
    simpl in Hn. discriminate.
  - right. exists sid, d, m. auto.
Qed.

Lemma dot_self (a : vec) : dot a a = sum_sq a.
Proof. induction a as [|x a IH]; simpl; [reflexivity|]. rewrite IH. reflexivity. Qed.

Lemma sum_sq_nonneg (a : vec) : 0 <= sum_sq a.
Proof.
  induction a as [|x a IH]; simpl; [lra|].
  pose proof (Rle_0_sqr x) as Hx. unfold Rsqr in Hx. lra.
Qed.

Lemma eps_pos : 0 < eps.
Proof. unfold eps. apply Rinv_0_lt_compat. lra. Qed.

(** The cosine distance of an embedding to itself. *)
Lemma cosine_dist_self (a : vec) : cosine_dist a a = eps / (sum_sq a + eps).
Proof.
  unfold cosine_dist, norm. rewrite dot_self.
  rewrite sqrt_sqrt by apply sum_sq_nonneg.
  pose proof (sum_sq_nonneg a). pose proof eps_pos.
  field. lra.
Qed.

Lemma cosine_dist_self_pos (a : vec) : 0 < sum_sq a -> 0 < cosine_dist a a < 1.
Proof.
  intro Hp. pose proof eps_pos as He. rewrite cosine_dist_self. split.
  - apply Rdiv_lt_0_compat; lra.
  - apply (Rmult_lt_reg_r (sum_sq a + eps)); [lra|].
    unfold Rdiv. rewrite Rmult_assoc, Rinv_l by lra. lra.
Qed.

Lemma cosine_dist_self_small (a : vec) : 1 <= sum_sq a -> cosine_dist a a <= eps.
Proof.
  intro H1. pose proof eps_pos as He. rewrite cosine_dist_self.
  apply (Rmult_le_reg_r (sum_sq a + eps)); [lra|].
  unfold Rdiv. rewrite Rmult_assoc, Rinv_l by lra.
  assert (0 <= eps * (sum_sq a + eps - 1)) by (apply Rmult_le_pos; lra). nra.
Qed.

Lemma eps_small : eps < 35 / 100.
Proof.
  unfold eps. apply (Rmult_lt_reg_r 100000000); [lra|].
  rewrite Rinv_l by lra. lra.
Qed.

Lemma pair_distance_same_length ref e :
  List.length ref = List.length e -> pair_distance ref e = Some (cosine_dist ref e, Cosine).
Proof.
  intro H. unfold pair_distance. rewrite H, Nat.eqb_refl. reflexivity.
Qed.

(** The only reference is the query itself. *)
Lemma match_single_self_eq tn tf (X : Z) (E : vec) :
  match_embedding tn tf [(X, E)] E
  = if Rlt_dec tn (cosine_dist E E) then None else Some X.
Proof.
  unfold match_embedding. simpl.
  rewrite (pair_distance_same_length E E eq_refl). simpl.
  unfold accept. simpl. reflexivity.
Qed.

(** Against the reference set [{7: [1]}], image [0] is recognised as 7. *)
Lemma match_unit_seven :
  match_embedding default_threshold_nn default_threshold_fallback [(7%Z, [1])] [1]
  = Some 7%Z.
Proof.
  rewrite match_single_self_eq.
  assert (Hs : 1 <= sum_sq [1]) by (simpl; lra).
  pose proof (cosine_dist_self_small [1] Hs). pose proof eps_small.
  unfold default_threshold_nn.
  destruct (Rlt_dec (35 / 100) (cosine_dist [1] [1])); [lra | reflexivity].
Qed.

End MatcherFacts.

Module MatcherClaims.

Import Matcher MatcherFacts.
Open Scope R_scope.

Lemma pair_distance_none ref e :
  pair_distance ref e = None
  <-> (List.length ref <> List.length e /\ List.length ref <> 1%nat /\ List.length e <> 1%nat).
Proof.
  unfold pair_distance, broadcast_sub.
  destruct (Nat.eqb_spec (List.length ref) (List.length e)) as [H|H].
  - split; [discriminate | tauto].
  - destruct ref as [|r0 [|r1 rr]], e as [|e0 [|e1 ee]]; simpl in *;
      split; intro Hx; try discriminate; try lia; try tauto.
Qed.

Lemma pair_distance_broadcast ref e :
  List.length ref <> List.length e -> (List.length ref = 1%nat \/ List.length e = 1%nat) ->
  exists d, pair_distance ref e = Some (d, L2).
Proof.
  intros Hne H1. unfold pair_distance, broadcast_sub.
  destruct (Nat.eqb_spec (List.length ref) (List.length e)) as [H|H]; [contradiction|].
  destruct ref as [|r0 [|r1 rr]], e as [|e0 [|e1 ee]]; simpl in *;
    try (eexists; reflexivity); lia.
Qed.

Lemma match_single_self tn tf (X : Z) (E : vec) :
  match_embedding tn tf [(X, E)] E = Some X <-> cosine_dist E E <= tn.
Proof.
  rewrite match_single_self_eq.
  destruct (Rlt_dec tn (cosine_dist E E)); split; intro H; try discriminate; try lra; auto.
Qed.

(** The accepted student is a nearest comparable reference whose distance
    is within the threshold of its metric. *)
Lemma match_embedding_accepted tn tf c e sid :
  match_embedding tn tf c e = Some sid ->
  exists d m, candidate c e sid d m /\ d <= threshold_for tn tf m
              /\ forall sid' d' m', candidate c e sid' d' m' -> d <= d'.
Proof.
  intro H. unfold match_embedding in H.
  destruct (scan_init_spec c e) as [[Hs _] | (w & dw & mw & Hc & Hs & Hmin)];
    rewrite Hs in H; [discriminate|].
  unfold accept in H. simpl in H.
  exists dw, mw. destruct mw; simpl in *;
    destruct (Rlt_dec _ dw) as [Hlt|Hge]; try discriminate;
    inversion H; subst; (split; [exact Hc|]); split; auto; lra.
Qed.

(** C5: the winner (a nearest comparable reference) is accepted only when
    its distance is at most the threshold of its metric; when the nearest
    candidates all carry a metric whose threshold their distance exceeds,
    the result is "no match" although a nearest candidate exists; an empty
    reference set always gives "no match". *)
Theorem match_embedding_threshold (tn tf : R) :
  (forall e, match_embedding tn tf [] e = None)
  /\ (forall c e sid, match_embedding tn tf c e = Some sid ->
        exists d m, candidate c e sid d m /\ d <= threshold_for tn tf m
                    /\ forall sid' d' m', candidate c e sid' d' m' -> d <= d')
  /\ (forall c e sid d m, candidate c e sid d m ->
        (forall sid' d' m', candidate c e sid' d' m' -> d <= d' /\ (d' = d -> m' = m)) ->
        threshold_for tn tf m < d -> match_embedding tn tf c e = None).
Proof.
  split; [reflexivity|]. split.
  - exact (match_embedding_accepted tn tf).
  - intros c e sid d m Hc Hnear Hthr. unfold match_embedding.
    destruct (scan_init_spec c e) as [[_ Hn] | (w & dw & mw & Hcw & Hs & Hmin)].
    + exfalso. exact (Hn sid d m Hc).
    + rewrite Hs. pose proof (Hmin sid d m Hc) as H1.
      destruct (Hnear w dw mw Hcw) as [H2 H3].
      assert (Hd : dw = d) by lra. specialize (H3 Hd). subst dw mw.
      unfold accept. simpl. destruct m; simpl in *;
        destruct (Rlt_dec _ d); auto; lra.
Qed.

Lemma match_embedding_threshold_witness :
  exists d m, candidate [(7%Z, [1])] [1] 7%Z d m
              /\ d <= threshold_for default_threshold_nn default_threshold_fallback m.
Proof.
  destruct (match_embedding_threshold default_threshold_nn default_threshold_fallback)
    as (_ & Hacc & _).
  destruct (Hacc [(7%Z, [1])] [1] 7%Z match_unit_seven) as (d & m & Hc & Hle & _).
  exists d, m. split; [exact Hc | exact Hle].
Defined.

(** C3 (reported defect): two embeddings of the same shape are always
    compared by cosine distance, fallback (non-NN) embeddings included; for
    the fallback pair below the L2 distance the docstring prescribes is
    under the fallback threshold, while the code rejects the pair. *)
Theorem same_shape_uses_cosine :
  (forall ref e, List.length ref = List.length e ->
     pair_distance ref e = Some (cosine_dist ref e, Cosine))
  /\ pair_distance [1/10; 0] [0; 1/10] = Some (1, Cosine)
  /\ match_embedding default_threshold_nn default_threshold_fallback
       [(7%Z, [1/10; 0])] [0; 1/10] = None
  /\ norm (map (fun p => fst p - snd p) (combine [1/10; 0] [0; 1/10]))
       < default_threshold_fallback.
Proof.
  assert (Hcos : cosine_dist [1/10; 0] [0; 1/10] = 1).
  { unfold cosine_dist. cbn [dot].
    replace (1 / 10 * 0 + (0 * (1 / 10) + 0)) with 0 by ring.
    unfold Rdiv at 1. rewrite Rmult_0_l. ring. }
  split; [exact pair_distance_same_length|].
  split; [rewrite pair_distance_same_length by reflexivity; now rewrite Hcos|].
  split.
  - unfold match_embedding. cbn [scan].
    rewrite (pair_distance_same_length [1/10; 0] [0; 1/10] eq_refl), Hcos.
    unfold accept, default_threshold_nn. simpl.
    destruct (Rlt_dec (35 / 100) 1); [reflexivity | lra].
  - unfold norm, default_threshold_fallback. cbn [map combine fst snd sum_sq].
    rewrite <- (sqrt_square (6 / 10)) by lra.
    apply sqrt_lt_1_alt. lra.
Qed.

Lemma same_shape_uses_cosine_witness :
  pair_distance [1; 2] [3; 4] = Some (cosine_dist [1; 2] [3; 4], Cosine).
Proof.
  destruct same_shape_uses_cosine as (Hsame & _).
  apply Hsame. reflexivity.
Defined.

(** C8: the self-distance is not always 0: for the all-zero embedding the
    numerator is 0 and the denominator is the added [1e-8], so the distance
    is 1 and the match is rejected at the default threshold. *)
Lemma cosine_self_distance_counterexample :
  cosine_dist [0] [0] = 1
  /\ match_embedding default_threshold_nn default_threshold_fallback [(7%Z, [0])] [0] = None.
Proof.
  pose proof eps_pos as He.
  assert (H0 : cosine_dist [0] [0] = 1).
  { rewrite cosine_dist_self. simpl. field. lra. }
  split; [exact H0|].
  rewrite match_single_self_eq, H0. unfold default_threshold_nn.
  destruct (Rlt_dec (35 / 100) 1); [reflexivity | lra].
Qed.

(** C8, as the code behaves, for the embeddings whose value does not
    depend on rounding: an all-zero embedding [E] (of any length, such as the
    grayscale fallback of an all-black image) has cosine distance exactly 1
    to itself (every product is 0 and [0 / 1e-8 = 0] in any floating-point
    format); with [X] the only reference, the query [E] is accepted exactly
    when the cosine threshold is at least 1. *)
Theorem cosine_self_distance (X : Z) (E : vec) (tn tf : R) :
  (forall x, In x E -> x = 0) ->
  cosine_dist E E = 1
  /\ (match_embedding tn tf [(X, E)] E = Some X <-> 1 <= tn).
Proof.
  intro Hz. pose proof eps_pos as He.
  assert (Hs : sum_sq E = 0).
  { induction E as [|x E IH]; simpl; [reflexivity|].
    rewrite (Hz x (or_introl eq_refl)), IH; [ring|].
    intros y Hy. apply Hz. now right. }
  assert (H1 : cosine_dist E E = 1).
  { rewrite cosine_dist_self, Hs. field. lra. }
  split; [exact H1|].
  rewrite <- H1. apply match_single_self.
Qed.

Lemma cosine_self_distance_witness :
  (forall x, In x [0; 0] -> x = 0)
  /\ cosine_dist [0; 0] [0; 0] = 1
  /\ (match_embedding default_threshold_nn default_threshold_fallback [(7%Z, [0; 0])] [0; 0]
       = Some 7%Z <-> 1 <= default_threshold_nn).
Proof.
  assert (Hz : forall x, In x [0; 0] -> x = 0) by (intros x [<-|[<-|[]]]; reflexivity).
  split; [exact Hz|].
  exact (cosine_self_distance 7%Z [0; 0] default_threshold_nn default_threshold_fallback Hz).
Defined.

(** C9: a reference whose shape differs from the query's can win: a
    one-element reference broadcasts against a two-element query, is
    compared by L2 distance and is accepted. *)
Lemma mismatched_shape_counterexample :
  List.length [1/2] <> List.length [1/2; 1/2]
  /\ match_embedding default_threshold_nn default_threshold_fallback
       [(7%Z, [1/2])] [1/2; 1/2] = Some 7%Z.
Proof.
  split; [discriminate|].
  unfold match_embedding. simpl.
  unfold pair_distance, broadcast_sub. simpl.
  unfold norm. cbn [sum_sq].
  replace ((1/2 - 1/2) * (1/2 - 1/2) + ((1/2 - 1/2) * (1/2 - 1/2) + 0)) with 0 by ring.
  rewrite sqrt_0. simpl. unfold accept, default_threshold_fallback. simpl.
  destruct (Rlt_dec (6/10) 0); [lra | reflexivity].
Qed.

(** C9, as the code behaves: a pair raises (and is skipped by the
    [except]) exactly when the shapes differ and neither has length 1; a
    shape-mismatched pair that broadcasts is compared by L2 distance; the
    accepted student is always one whose comparison did not raise. *)
Theorem mismatched_shapes (tn tf : R) :
  (forall ref e, pair_distance ref e = None
     <-> (List.length ref <> List.length e /\ List.length ref <> 1%nat
          /\ List.length e <> 1%nat))
  /\ (forall ref e, List.length ref <> List.length e ->
        (List.length ref = 1%nat \/ List.length e = 1%nat) ->
        exists d, pair_distance ref e = Some (d, L2))
  /\ (forall c e sid, match_embedding tn tf c e = Some sid ->
        exists ref, In (sid, ref) c /\ pair_distance ref e <> None).
Proof.
  split; [exact pair_distance_none|]. split; [exact pair_distance_broadcast|].
  intros c e sid H.
  destruct (match_embedding_accepted tn tf c e sid H) as (d & m & (ref & Hin & Hp) & _).
  exists ref. split; [exact Hin|]. congruence.
Qed.

Lemma mismatched_shapes_witness :
  exists d, pair_distance [1] [1; 2] = Some (d, L2).
Proof.
  destruct (mismatched_shapes default_threshold_nn default_threshold_fallback)
    as (_ & Hbc & _).
  apply Hbc; simpl; [discriminate | now left].
Defined.

End MatcherClaims.

(** ** The face service *)

Module ServiceFacts.

Import Matcher MatcherFacts MatcherClaims Service Fixtures.
Open Scope R_scope.

Lemma predict_world_seven b r st :
  match emb_cache st with Some c => c | None => load_cache (world b r) st end
  = [(7%Z, [1])] ->
  fst (predict_student_id (world b r) st 0%nat) = Some 7%Z.
Proof.
  intro Hc. unfold predict_student_id, predict. simpl.
  rewrite Hc. exact match_unit_seven.
Qed.




End ServiceFacts.

Module ServiceClaims.

Import Matcher MatcherFacts MatcherClaims Service Fixtures ServiceFacts.
Open Scope R_scope.


(** C2 (reported defect): [delete_student_profile] never clears the
    in-memory cache, and [enroll_from_path] clears it only after a
    successful upsert to the remote table; so after deleting student 7 with
    a warm cache, a query equal to 7's embedding is still recognised as 7. *)
Theorem stale_cache_after_delete :
  (forall (raw image : Type) (env : Env raw image) st sid,
      emb_cache (delete_student_embedding env st sid) = emb_cache st)
  /\ (forall (raw image : Type) (env : Env raw image) st path sid,
        table st = None ->
        emb_cache (snd (enroll_from_path env st path sid)) = emb_cache st)
  /\ files (delete_student_embedding (world true true)
              (mkStore [(7%Z, [1])] None (Some [(7%Z, [1])])) 7%Z) = []
  /\ fst (predict_student_id (world true true)
            (delete_student_embedding (world true true)
               (mkStore [(7%Z, [1])] None (Some [(7%Z, [1])])) 7%Z) 0%nat)
     = Some 7%Z.
Proof.
  split; [intros; reflexivity|]. split.
  - intros raw image env st path sid Ht. unfold enroll_from_path.
    destruct (negb (has_cv2 env) || String.eqb path "")%bool; [reflexivity|].
    destruct (imread env (resolve_path env path)) as [img|]; [|reflexivity].
    destruct (compute_embedding env img) as [e|]; [|reflexivity].
    destruct (local_save_ok env); simpl; rewrite Ht; reflexivity.
  - split; [reflexivity|]. apply predict_world_seven. reflexivity.
Qed.

Lemma stale_cache_after_delete_witness :
  emb_cache (snd (enroll_from_path (world true true)
                    (mkStore [] None (Some [(7%Z, [1])])) "/uploads/8.jpg"%string 8%Z))
  = Some [(7%Z, [1])].
Proof.
  destruct stale_cache_after_delete as (_ & Henroll & _).
  apply (Henroll (list nat) nat (world true true) (mkStore [] None (Some [(7%Z, [1])]))
           "/uploads/8.jpg"%string 8%Z).
  reflexivity.
Defined.







End ServiceClaims.

(** ** The schedule resolver and the ledger *)

Module ScheduleFacts.

Import Schedule.
Open Scope string_scope.

Lemma ascii_compare_refl (x : ascii) : Ascii.compare x x = Eq.
Proof. unfold Ascii.compare. apply N.compare_refl. Qed.

Lemma string_compare_refl (s : string) : String.compare s s = Eq.
Proof.
  induction s as [|x s IH]; simpl; [reflexivity|].
  rewrite ascii_compare_refl. exact IH.
Qed.

Lemma string_compare_lt_trans a b c :
  String.compare a b = Lt -> String.compare b c = Lt -> String.compare a c = Lt.
Proof.
  revert b c. induction a as [|x a IH]; intros b c H1 H2.
  - destruct b, c; simpl in *; congruence.
  - destruct b as [|y b]; [simpl in H1; discriminate|].
    destruct c as [|z c]; [simpl in H2; discriminate|].
    simpl in *.
    destruct (Ascii.compare x y) eqn:Exy; try discriminate;
      destruct (Ascii.compare y z) eqn:Eyz; try discriminate.
    + apply Ascii.compare_eq_iff in Exy, Eyz. subst.
      rewrite ascii_compare_refl. eauto.
    + apply Ascii.compare_eq_iff in Exy. subst. now rewrite Eyz.
    + apply Ascii.compare_eq_iff in Eyz. subst. now rewrite Exy.
    + unfold Ascii.compare in *. rewrite N.compare_lt_iff in Exy, Eyz.
      assert (Hxz : (N_of_ascii x < N_of_ascii z)%N) by (eapply N.lt_trans; eauto).
      apply N.compare_lt_iff in Hxz. now rewrite Hxz.
Qed.

Lemma string_leb_iff a b : String.leb a b = true <-> String.compare a b <> Gt.
Proof. unfold String.leb. destruct (String.compare a b); split; congruence. Qed.

Lemma string_leb_trans a b c :
  String.leb a b = true -> String.leb b c = true -> String.leb a c = true.
Proof.
  rewrite !string_leb_iff. intros H1 H2.
  destruct (String.compare a b) eqn:E1; [|clear H1|contradiction].
  - apply String.compare_eq_iff in E1. now subst.
  - destruct (String.compare b c) eqn:E2; [|clear H2|contradiction].
    + apply String.compare_eq_iff in E2. subst. now rewrite E1.
    + now rewrite (string_compare_lt_trans a b c E1 E2).
Qed.

Lemma string_ltb_leb a b : String.ltb a b = true -> String.leb a b = true.
Proof. unfold String.ltb, String.leb. destruct (String.compare a b); congruence. Qed.

Lemma string_ltb_false a b : String.ltb a b = false -> String.leb b a = true.
Proof.
  unfold String.ltb, String.leb. rewrite (String.compare_antisym b a).
  destruct (String.compare a b); simpl; congruence.
Qed.

Lemma string_ltb_leb_absurd a b :
  String.ltb a b = true -> String.leb b a = true -> False.
Proof.
  unfold String.ltb, String.leb. rewrite (String.compare_antisym b a).
  destruct (String.compare a b); simpl; congruence.
Qed.

Definition start_le (x y : Slot) : Prop := String.leb (start_time x) (start_time y) = true.

Lemma insert_by_start_in s rows x :
  In x (insert_by_start s rows) <-> x = s \/ In x rows.
Proof.
  induction rows as [|r rs IH]; simpl.
  - intuition.
  - destruct (String.ltb (start_time s) (start_time r)); simpl; [intuition|].
    rewrite IH. intuition.
Qed.

Lemma sort_by_start_in rows x : In x (sort_by_start rows) <-> In x rows.
Proof.
  induction rows as [|r rs IH]; simpl; [tauto|].
  rewrite insert_by_start_in, IH. intuition.
Qed.

Lemma insert_by_start_sorted s rows :
  StronglySorted start_le rows -> StronglySorted start_le (insert_by_start s rows).
Proof.
  induction rows as [|r rs IH]; simpl; intro Hs.
  - repeat constructor.
  - apply StronglySorted_inv in Hs as [Hrs Hall].
    destruct (String.ltb (start_time s) (start_time r)) eqn:Hlt.
    + constructor; [constructor; assumption|].
      constructor.
      * apply string_ltb_leb, Hlt.
      * rewrite Forall_forall in Hall |- *. intros x Hx.
        unfold start_le in *. eapply string_leb_trans; [apply string_ltb_leb, Hlt|].
        apply Hall, Hx.
    + constructor; [apply IH, Hrs|].
      rewrite Forall_forall in Hall |- *. intros x Hx.
      apply insert_by_start_in in Hx as [Hx|Hx].
      * subst. apply string_ltb_false, Hlt.
      * apply Hall, Hx.
Qed.

Lemma sort_by_start_sorted rows : StronglySorted start_le (sort_by_start rows).
Proof.
  induction rows as [|r rs IH]; simpl; [constructor|].
  apply insert_by_start_sorted, IH.
Qed.

Lemma strongly_sorted_after {A} (R : A -> A -> Prop) l1 r l2 :
  StronglySorted R (app l1 (r :: l2)) -> Forall (R r) l2.
Proof.
  induction l1 as [|x l1 IH]; simpl; intro H.
  - apply StronglySorted_inv in H. tauto.
  - apply StronglySorted_inv in H as [H _]. auto.
Qed.

Lemma find_slot_some now rows r :
  find_slot now rows = Some r ->
  exists l1 l2, rows = app l1 (r :: l2) /\ slot_contains now r = true
                /\ forall x, In x l1 -> slot_contains now x = false.
Proof.
  induction rows as [|x rs IH]; simpl; [discriminate|].
  destruct (slot_contains now x) eqn:Hx; intro H.
  - inversion H; subst. exists [], rs. simpl. repeat split; auto. contradiction.
  - destruct (IH H) as (l1 & l2 & -> & Hr & Hl1).
    exists (x :: l1), l2. simpl. repeat split; auto.
    intros y [<-|Hy]; auto.
Qed.

Lemma find_slot_none now rows :
  find_slot now rows = None <-> forall x, In x rows -> slot_contains now x = false.
Proof.
  induction rows as [|x rs IH]; simpl; [split; [contradiction|reflexivity]|].
  destruct (slot_contains now x) eqn:Hx.
  - split; [discriminate|]. intro H. rewrite (H x (or_introl eq_refl)) in Hx. discriminate.
  - rewrite IH. split.
    + intros H y [<-|Hy]; auto.
    + intros H y Hy. auto.
Qed.

Lemma timetable_query_in sid wd slots r :
  In r (timetable_query sid wd slots)
  <-> In r slots /\ slot_student r = sid /\ slot_weekday r = wd.
Proof.
  unfold timetable_query. rewrite sort_by_start_in, filter_In.
  rewrite andb_true_iff, !Z.eqb_eq. tauto.
Qed.

Lemma is_record_of_appended sid j d ledger :
  existsb (is_record_of sid j d) (app ledger [mkAtt sid (Some j) d]) = true.
Proof.
  rewrite existsb_app. apply orb_true_iff. right.
  unfold is_record_of. cbn [existsb att_student att_subject att_date].
  rewrite !Z.eqb_refl. reflexivity.
Qed.

Lemma count_records_appended sid j d ledger :
  count_records sid j d (app ledger [mkAtt sid (Some j) d]) = S (count_records sid j d ledger).
Proof.
  unfold count_records. rewrite filter_app, length_app.
  unfold is_record_of at 2. cbn [filter att_student att_subject att_date].
  rewrite !Z.eqb_refl. simpl. lia.
Qed.

Lemma count_records_zero sid j d ledger :
  existsb (is_record_of sid j d) ledger = false -> count_records sid j d ledger = 0%nat.
Proof.
  intro H. unfold count_records.
  induction ledger as [|a l IH]; simpl in *; [reflexivity|].
  apply orb_false_iff in H as [H1 H2]. rewrite H1. auto.
Qed.

(** The flow reads the ledger only through the duplicate check: either it
    never reaches the check, or it acts on one subject [j] for any ledger. *)
Lemma resolve_and_decide_cases db sid now :
  (exists d, (forall j, d <> AttendanceMarked sid j /\ d <> AlreadyMarked sid j)
             /\ forall l, resolve_and_decide db l sid now = (d, l))
  \/ (exists j, forall l, resolve_and_decide db l sid now
        = if existsb (is_record_of sid j (now_date now)) l
          then (AlreadyMarked sid j, l)
          else (AttendanceMarked sid j, app l [mkAtt sid (Some j) (now_date now)])).
Proof.
  unfold resolve_and_decide.
  destruct (existsb (Z.eqb sid) (students db)); simpl.
  2:{ left. exists StudentNotFound. split; [intro j; split; discriminate|reflexivity]. }
  destruct (resolve sid (now_weekday now) (now_str now) (timetable db)) as [r|].
  2:{ left. exists (NoMatchingClass sid). split; [intro j; split; discriminate|reflexivity]. }
  destruct (negb (Z.eqb (slot_subject r) 0) && existsb (Z.eqb (slot_subject r)) (subjects db)).
  - right. exists (slot_subject r). reflexivity.
  - left. exists (NoMatchingClass sid). split; [intro j; split; discriminate|reflexivity].
Qed.

Lemma count_records_pos sid j d ledger :
  existsb (is_record_of sid j d) ledger = true -> (0 < count_records sid j d ledger)%nat.
Proof.
  intro H. unfold count_records.
  induction ledger as [|a l IH]; simpl in *; [discriminate|].
  destruct (is_record_of sid j d a); simpl; [lia|auto].
Qed.

End ScheduleFacts.

Module ScheduleClaims.

Import Schedule ScheduleFacts.
Open Scope string_scope.

(** C6: the resolver returns a slot of the given student and weekday whose
    interval [start, end] contains the time (inclusive on both ends), and no
    slot of that student and weekday starting strictly earlier contains the
    time; it returns [None] exactly when no such slot contains the time.
    For the slots (Mon 09:00-10:00 subject 1) and (Mon 10:00-11:00 subject
    2), 09:30 gives subject 1, 10:00 gives a slot containing 10:00 (subject
    1, the earlier start), 12:00 gives [None]. *)
Theorem resolve_first_containing (sid wd : Z) (now : string) (slots : list Slot) :
  (forall r, resolve sid wd now slots = Some r ->
     In r slots /\ slot_student r = sid /\ slot_weekday r = wd
     /\ String.leb (start_time r) now = true /\ String.leb now (end_time r) = true
     /\ forall r', In r' slots -> slot_student r' = sid -> slot_weekday r' = wd ->
          String.ltb (start_time r') (start_time r) = true ->
          slot_contains now r' = false)
  /\ (resolve sid wd now slots = None
      <-> forall r, In r slots -> slot_student r = sid -> slot_weekday r = wd ->
            slot_contains now r = false)
  /\ (let sl := [mkSlot 1 0 "09:00" "10:00" 1; mkSlot 1 0 "10:00" "11:00" 2] in
      option_map slot_subject (resolve 1 0 "09:30" sl) = Some 1%Z
      /\ (exists r, resolve 1 0 "10:00" sl = Some r /\ slot_contains "10:00" r = true
                    /\ slot_subject r = 1%Z)
      /\ resolve 1 0 "12:00" sl = None).
Proof.
  split; [|split].
  - intros r H. unfold resolve in H.
    destruct (find_slot_some _ _ _ H) as (l1 & l2 & Hl & Hc & Hl1).
    assert (Hr : In r (timetable_query sid wd slots))
      by (rewrite Hl; apply in_or_app; right; now left).
    apply timetable_query_in in Hr as (Hin & Hs & Hw).
    unfold slot_contains in Hc. apply andb_true_iff in Hc as [Hc1 Hc2].
    repeat split; auto.
    intros r' Hin' Hs' Hw' Hlt.
    destruct (slot_contains now r') eqn:Hc'; [exfalso|reflexivity].
    assert (Hq : In r' (timetable_query sid wd slots))
      by (apply timetable_query_in; auto).
    rewrite Hl in Hq. apply in_app_or in Hq as [Hq|[Hq|Hq]].
    + rewrite (Hl1 r' Hq) in Hc'. discriminate.
    + subst r'. unfold String.ltb in Hlt. rewrite string_compare_refl in Hlt. discriminate.
    + pose proof (sort_by_start_sorted
                    (filter (fun r => Z.eqb (slot_student r) sid && Z.eqb (slot_weekday r) wd)
                            slots)) as Hsorted.
      fold (timetable_query sid wd slots) in Hsorted. rewrite Hl in Hsorted.
      apply strongly_sorted_after in Hsorted.
      rewrite Forall_forall in Hsorted.
      exact (string_ltb_leb_absurd _ _ Hlt (Hsorted r' Hq)).
  - unfold resolve. rewrite find_slot_none. split.
    + intros H r Hin Hs Hw. apply H, timetable_query_in. auto.
    + intros H r Hr. apply timetable_query_in in Hr as (Hin & Hs & Hw). auto.
  - simpl. split; [reflexivity|]. split; [|reflexivity].
    eexists. split; [reflexivity|]. split; reflexivity.
Qed.

Lemma resolve_first_containing_witness :
  resolve 1 0 "09:30" [mkSlot 1 0 "09:00" "10:00" 1] = Some (mkSlot 1 0 "09:00" "10:00" 1)
  /\ String.leb "09:00" "09:30" = true.
Proof.
  split; [reflexivity|].
  destruct (resolve_first_containing 1 0 "09:30" [mkSlot 1 0 "09:00" "10:00" 1])
    as (Hsome & _ & _).
  destruct (Hsome (mkSlot 1 0 "09:00" "10:00" 1) eq_refl) as (_ & _ & _ & Hle & _).
  exact Hle.
Defined.

(** C7: when a record for (student, subject, date) is already in the
    ledger, the flow answers "already marked" and leaves the ledger as it
    is; running the flow a second time at the same moment never changes the
    ledger and answers "already marked" for the slot the first run found;
    so, starting from at most one record for the triple, two runs leave
    exactly one. *)
Theorem decide_idempotent (db : Db) (ledger : list AttRecord) (sid : Z) (now : Now) :
  (forall r, existsb (Z.eqb sid) (students db) = true ->
     resolve sid (now_weekday now) (now_str now) (timetable db) = Some r ->
     slot_subject r <> 0%Z -> existsb (Z.eqb (slot_subject r)) (subjects db) = true ->
     existsb (is_record_of sid (slot_subject r) (now_date now)) ledger = true ->
     resolve_and_decide db ledger sid now = (AlreadyMarked sid (slot_subject r), ledger))
  /\ (let (d1, l1) := resolve_and_decide db ledger sid now in
      let (d2, l2) := resolve_and_decide db l1 sid now in
      l2 = l1
      /\ (forall j, (d1 = AttendanceMarked sid j \/ d1 = AlreadyMarked sid j) ->
            d2 = AlreadyMarked sid j
            /\ ((count_records sid j (now_date now) ledger <= 1)%nat ->
                count_records sid j (now_date now) l2 = 1%nat))).
Proof.
  split.
  - intros r Hst Hres Hj Hsub Hrec. unfold resolve_and_decide.
    rewrite Hst, Hres. simpl.
    replace (Z.eqb (slot_subject r) 0) with false by (symmetry; apply Z.eqb_neq; exact Hj).
    rewrite Hsub, Hrec. reflexivity.
  - destruct (resolve_and_decide_cases db sid now) as [(d & Hd & Hrun) | (j0 & Hrun)].
    + rewrite (Hrun ledger), (Hrun ledger). split; [reflexivity|].
      intros j [H|H]; subst d; specialize (Hd j); tauto.
    + rewrite (Hrun ledger).
      destruct (existsb (is_record_of sid j0 (now_date now)) ledger) eqn:Hrec.
      * rewrite (Hrun ledger), Hrec. split; [reflexivity|].
        intros j [H|H]; [discriminate|]. inversion H; subst j.
        split; [reflexivity|]. intro Hle.
        pose proof (count_records_pos _ _ _ _ Hrec). lia.
      * rewrite (Hrun (app ledger _)), is_record_of_appended. split; [reflexivity|].
        intros j [H|H]; [|discriminate]. inversion H; subst j.
        split; [reflexivity|]. intros _.
        rewrite count_records_appended, count_records_zero by exact Hrec. reflexivity.
Qed.

Lemma decide_idempotent_witness :
  resolve_and_decide (mkDb [1%Z] [3%Z] [mkSlot 1 0 "09:00" "10:00" 3])
    [mkAtt 1 (Some 3%Z) 20] 1 (mkNow 20 0 "09:30")
  = (AlreadyMarked 1 3, [mkAtt 1 (Some 3%Z) 20]).
Proof.
  destruct (decide_idempotent (mkDb [1%Z] [3%Z] [mkSlot 1 0 "09:00" "10:00" 3])
              [mkAtt 1 (Some 3%Z) 20] 1 (mkNow 20 0 "09:30")) as [Hal _].
  apply (Hal (mkSlot 1 0 "09:00" "10:00" 3)); [reflexivity|reflexivity|discriminate|
                                                reflexivity|reflexivity].
Defined.

End ScheduleClaims.

(** * Further properties of the code *)

(** ** The vote does not depend on the order of the frames *)

Module VoteExtra.

Import Vote VoteFacts.

Lemma count_verdict_perm v ps qs :
  Permutation ps qs -> count_verdict v ps = count_verdict v qs.
Proof. induction 1; simpl; lia. Qed.

Lemma majority_vote_not_bad ps : ps <> [] -> majority_vote ps <> BadFrames.
Proof.
  destruct ps as [|p ps]; [congruence|]. intros _. simpl.
  destruct (most_common_1 (Counter (p :: ps))) as [[[b|] m]|];
    try destruct (Nat.leb m _); discriminate.
Qed.

Lemma majority_vote_matched_iff ps a :
  ps <> [] ->
  (majority_vote ps = Matched a <-> (List.length ps / 2 < count_verdict (Some a) ps)%nat).
Proof.
  intro Hne.
  assert (Hmv : majority_vote ps =
            match most_common_1 (Counter ps) with
            | Some (Some best_id, best_count) =>
                if Nat.leb best_count (List.length ps / 2) then NotRecognized
                else Matched best_id
            | _ => NotRecognized
            end) by (destruct ps; [congruence|reflexivity]).
  rewrite Hmv. destruct (most_common_1_nonempty ps Hne) as (b & m & Hmc).
  rewrite Hmc. destruct (most_common_1_spec ps b m Hmc) as [Hm Hmax].
  split.
  - destruct b as [b|]; [|discriminate].
    destruct (Nat.leb m (List.length ps / 2)) eqn:Hle; [discriminate|].
    intro H; inversion H; subst. apply Nat.leb_gt in Hle. exact Hle.
  - intro Hgt.
    assert (Hb : b = Some a).
    { assert (Hdec : {b = Some a} + {b <> Some a})
        by (decide equality; apply Z.eq_dec).
      destruct Hdec as [E|E]; [exact E|].
      pose proof (count_verdict_two b (Some a) ps E) as Hsum.
      specialize (Hmax (Some a)). exfalso.
      pose proof (Nat.div_mod (List.length ps) 2 ltac:(lia)).
      pose proof (Nat.mod_upper_bound (List.length ps) 2 ltac:(lia)). lia. }
    subst b. destruct (Nat.leb m (List.length ps / 2)) eqn:Hle; [|reflexivity].
    apply Nat.leb_le in Hle. specialize (Hmax (Some a)). lia.
Qed.

(** X1: the answer of the vote does not depend on the order in which the
    frames arrive: two lists of verdicts that are permutations of each
    other give the same result (although [most_common(1)] breaks ties by
    first insertion, a tie never yields a match). *)
Theorem majority_vote_perm (ps qs : list verdict) :
  Permutation ps qs -> majority_vote ps = majority_vote qs.
Proof.
  intro Hp. destruct ps as [|p ps'].
  - apply Permutation_nil in Hp. now subst.
  - assert (Hne : p :: ps' <> []) by discriminate.
    assert (Hne' : qs <> []).
    { intro E. subst. apply Permutation_sym, Permutation_nil in Hp. discriminate. }
    assert (Hlen : List.length (p :: ps') = List.length qs) by (apply Permutation_length, Hp).
    assert (Hcnt : forall a, count_verdict (Some a) (p :: ps') = count_verdict (Some a) qs)
      by (intro a; apply count_verdict_perm, Hp).
    destruct (majority_vote (p :: ps')) as [ | | a] eqn:Hv.
    + exfalso. exact (majority_vote_not_bad _ Hne Hv).
    + destruct (majority_vote qs) as [ | | b] eqn:Hw.
      * exfalso. exact (majority_vote_not_bad _ Hne' Hw).
      * reflexivity.
      * apply (majority_vote_matched_iff qs b Hne') in Hw.
        rewrite <- Hlen, <- Hcnt in Hw.
        apply (majority_vote_matched_iff _ b Hne) in Hw. congruence.
    + apply (majority_vote_matched_iff _ a Hne) in Hv.
      rewrite Hlen, Hcnt in Hv. symmetry.
      apply (majority_vote_matched_iff qs a Hne'). exact Hv.
Qed.

Lemma majority_vote_perm_witness :
  Permutation [Some 4%Z; None; Some 4%Z] [None; Some 4%Z; Some 4%Z]
  /\ majority_vote [Some 4%Z; None; Some 4%Z] = majority_vote [None; Some 4%Z; Some 4%Z].
Proof.
  assert (Hp : Permutation [Some 4%Z; None; Some 4%Z] [None; Some 4%Z; Some 4%Z])
    by apply perm_swap.
  split; [exact Hp|].
  apply (majority_vote_perm [Some 4%Z; None; Some 4%Z] [None; Some 4%Z; Some 4%Z]).
  exact Hp.
Defined.

End VoteExtra.

(** ** The matcher: ties, skipped pairs and thresholds *)

Module MatcherExtra.

Import Matcher MatcherFacts MatcherClaims.
Open Scope R_scope.

(** The scan keeps its start value, or ends on an entry that beats it, is
    strictly nearer than every comparable entry before it and no farther
    than every comparable entry after it. *)
Lemma scan_split c e b :
  (scan c e b = b
   /\ forall sid ref d m, In (sid, ref) c -> pair_distance ref e = Some (d, m) ->
                          below_best d (best_score b) = false)
  \/ (exists c1 sid ref c2 d m,
        c = app c1 ((sid, ref) :: c2)
        /\ pair_distance ref e = Some (d, m)
        /\ scan c e b = mkBest (Some sid) (Some d) (is_cosine m)
        /\ below_best d (best_score b) = true
        /\ (forall sid' ref' d' m', In (sid', ref') c1 ->
              pair_distance ref' e = Some (d', m') -> d < d')
        /\ (forall sid' ref' d' m', In (sid', ref') c2 ->
              pair_distance ref' e = Some (d', m') -> d <= d')).
Proof.
  revert b. induction c as [|[sid0 ref0] c IH]; intro b; simpl.
  - left. split; [reflexivity|]. intros sid ref d m [].
  - destruct (pair_distance ref0 e) as [[d0 m0]|] eqn:Hpd.
    + destruct (below_best d0 (best_score b)) eqn:Hbb.
      * right. destruct (IH (mkBest (Some sid0) (Some d0) (is_cosine m0)))
          as [[Hs Hnone] | (c1 & sw & rw & c2 & dw & mw & Hc & Hpw & Hs & Hbw & H1 & H2)];
          simpl in *.
        -- exists [], sid0, ref0, c, d0, m0. split; [reflexivity|].
           split; [exact Hpd|]. split; [destruct m0; exact Hs|]. split; [exact Hbb|].
           split; [intros ? ? ? ? []|].
           intros sid' ref' d' m' Hin Hp'.
           specialize (Hnone sid' ref' d' m' Hin Hp').
           destruct (Rlt_dec d' d0); [discriminate|lra].
        -- apply below_best_some in Hbw.
           exists ((sid0, ref0) :: c1), sw, rw, c2, dw, mw.
           split; [now rewrite Hc|]. split; [exact Hpw|].
           split; [destruct m0; exact Hs|]. split.
           { destruct (best_score b) as [s|]; [|reflexivity].
             apply below_best_some in Hbb. apply below_best_some. lra. }
           split; [|exact H2].
           intros sid' ref' d' m' [Heq|Hin] Hp'.
           ++ inversion Heq; subst. rewrite Hpd in Hp'. inversion Hp'; subst. exact Hbw.
           ++ exact (H1 sid' ref' d' m' Hin Hp').
      * destruct (IH b) as [[Hs Hnone] | (c1 & sw & rw & c2 & dw & mw & Hc & Hpw & Hs & Hbw & H1 & H2)].
        -- left. split; [exact Hs|].
           intros sid' ref' d' m' [Heq|Hin] Hp'.
           ++ inversion Heq; subst. rewrite Hpd in Hp'. inversion Hp'; subst. exact Hbb.
           ++ exact (Hnone sid' ref' d' m' Hin Hp').
        -- right. exists ((sid0, ref0) :: c1), sw, rw, c2, dw, mw.
           split; [now rewrite Hc|]. split; [exact Hpw|]. split; [exact Hs|].
           split; [exact Hbw|]. split; [|exact H2].
           intros sid' ref' d' m' [Heq|Hin] Hp'.
           ++ inversion Heq; subst. rewrite Hpd in Hp'. inversion Hp'; subst.
              destruct (best_score b) as [s|]; [|discriminate].
              apply below_best_some in Hbw.
              simpl in Hbb. destruct (Rlt_dec d' s); [discriminate|lra].
           ++ exact (H1 sid' ref' d' m' Hin Hp').
    + destruct (IH b) as [[Hs Hnone] | (c1 & sw & rw & c2 & dw & mw & Hc & Hpw & Hs & Hbw & H1 & H2)].
      * left. split; [exact Hs|].
        intros sid' ref' d' m' [Heq|Hin] Hp'.
        -- inversion Heq; subst. congruence.
        -- exact (Hnone sid' ref' d' m' Hin Hp').
      * right. exists ((sid0, ref0) :: c1), sw, rw, c2, dw, mw.
        split; [now rewrite Hc|]. split; [exact Hpw|]. split; [exact Hs|].
        split; [exact Hbw|]. split; [|exact H2].
        intros sid' ref' d' m' [Heq|Hin] Hp'.
        -- inversion Heq; subst. congruence.
        -- exact (H1 sid' ref' d' m' Hin Hp').
Qed.

Lemma scan_skip c1 c2 sid ref e b :
  pair_distance ref e = None ->
  scan (app c1 ((sid, ref) :: c2)) e b = scan (app c1 c2) e b.
Proof.
  intro Hn. revert b. induction c1 as [|[s0 r0] c1 IH]; intro b; simpl.
  - rewrite Hn. reflexivity.
  - destruct (pair_distance r0 e) as [[d m]|]; [|apply IH].
    destruct (below_best d (best_score b)); apply IH.
Qed.

(** Two references equal to the query: the first one in the cache wins. *)
Lemma match_two_equal :
  match_embedding default_threshold_nn default_threshold_fallback
    [(5%Z, [1]); (6%Z, [1])] [1] = Some 5%Z.
Proof.
  unfold match_embedding, scan, best_init.
  rewrite (pair_distance_same_length [1] [1] eq_refl). cbn [below_best best_score].
  destruct (Rlt_dec (cosine_dist [1] [1]) (cosine_dist [1] [1])) as [H|_]; [lra|].
  unfold accept. cbn [best_id best_is_cosine best_score score_of is_cosine].
  assert (Hs : 1 <= sum_sq [1]) by (simpl; lra).
  pose proof (cosine_dist_self_small [1] Hs). pose proof eps_small.
  unfold default_threshold_nn.
  destruct (Rlt_dec (35 / 100) (cosine_dist [1] [1])); [lra|reflexivity].
Qed.

(** X2: the accepted student is the first entry of the cache, in its
    iteration order, among the nearest comparable ones: every comparable
    entry before it is strictly farther, every one after it is no nearer,
    and its distance is within the threshold of its metric. *)
Theorem match_embedding_first_nearest (tn tf : R) (c : list (Z * vec)) (e : vec) (sid : Z) :
  match_embedding tn tf c e = Some sid ->
  exists c1 ref c2 d m,
    c = app c1 ((sid, ref) :: c2)
    /\ pair_distance ref e = Some (d, m)
    /\ d <= threshold_for tn tf m
    /\ (forall sid' ref' d' m', In (sid', ref') c1 ->
          pair_distance ref' e = Some (d', m') -> d < d')
    /\ (forall sid' ref' d' m', In (sid', ref') c2 ->
          pair_distance ref' e = Some (d', m') -> d <= d').
Proof.
  intro H. unfold match_embedding in H.
  destruct (scan_split c e best_init)
    as [[Hs _] | (c1 & sw & rw & c2 & dw & mw & Hc & Hpw & Hs & _ & H1 & H2)];
    rewrite Hs in H; [discriminate|].
  unfold accept in H. cbn [best_id best_is_cosine best_score score_of] in H.
  exists c1, rw, c2, dw, mw.
  destruct mw; simpl in H; destruct (Rlt_dec _ dw) as [Hlt|Hge]; try discriminate;
    inversion H; subst; repeat split; auto; simpl; lra.
Qed.

Lemma match_embedding_first_nearest_witness :
  match_embedding default_threshold_nn default_threshold_fallback
    [(5%Z, [1]); (6%Z, [1])] [1] = Some 5%Z
  /\ exists c1 ref c2 d m,
       [(5%Z, [1]); (6%Z, [1])] = app c1 ((5%Z, ref) :: c2)
       /\ pair_distance ref [1] = Some (d, m)
       /\ d <= threshold_for default_threshold_nn default_threshold_fallback m
       /\ (forall sid' ref' d' m', In (sid', ref') c1 ->
             pair_distance ref' [1] = Some (d', m') -> d < d')
       /\ (forall sid' ref' d' m', In (sid', ref') c2 ->
             pair_distance ref' [1] = Some (d', m') -> d <= d').
Proof.
  split; [exact match_two_equal|].
  apply (match_embedding_first_nearest default_threshold_nn default_threshold_fallback
           [(5%Z, [1]); (6%Z, [1])] [1] 5%Z).
  exact match_two_equal.
Defined.

(** X3: an entry of the cache whose comparison with the query raises (an
    array of another length that does not broadcast) is skipped: removing
    it from the cache does not change the answer. *)
Theorem match_embedding_skips_raising (tn tf : R) c1 c2 (sid : Z) (ref e : vec) :
  pair_distance ref e = None ->
  match_embedding tn tf (app c1 ((sid, ref) :: c2)) e = match_embedding tn tf (app c1 c2) e.
Proof.
  intro Hn. unfold match_embedding. rewrite scan_skip by exact Hn. reflexivity.
Qed.

Lemma match_embedding_skips_raising_witness :
  pair_distance [1; 2] [1; 2; 3] = None
  /\ match_embedding default_threshold_nn default_threshold_fallback
       (app [(3%Z, [1; 0; 0])] ((4%Z, [1; 2]) :: [(5%Z, [1])])) [1; 2; 3]
     = match_embedding default_threshold_nn default_threshold_fallback
         (app [(3%Z, [1; 0; 0])] [(5%Z, [1])]) [1; 2; 3].
Proof.
  split; [reflexivity|].
  apply (match_embedding_skips_raising default_threshold_nn default_threshold_fallback
           [(3%Z, [1; 0; 0])] [(5%Z, [1])] 4%Z [1; 2] [1; 2; 3]).
  reflexivity.
Defined.

(** X4: raising either threshold never turns an accepted student into a
    rejection or into another student. *)
Theorem match_embedding_threshold_mono (tn tf tn' tf' : R) c e (sid : Z) :
  match_embedding tn tf c e = Some sid -> tn <= tn' -> tf <= tf' ->
  match_embedding tn' tf' c e = Some sid.
Proof.
  unfold match_embedding, accept. intros H Hn Hf.
  destruct (scan c e best_init) as [[id|] s cos]; cbn in *; [|discriminate].
  destruct cos.
  - destruct (Rlt_dec tn (score_of s)); [discriminate|].
    destruct (Rlt_dec tn' (score_of s)); [lra|exact H].
  - destruct (Rlt_dec tf (score_of s)); [discriminate|].
    destruct (Rlt_dec tf' (score_of s)); [lra|exact H].
Qed.

Lemma match_embedding_threshold_mono_witness :
  match_embedding default_threshold_nn default_threshold_fallback [(7%Z, [1])] [1] = Some 7%Z
  /\ default_threshold_nn <= 1 / 2 /\ default_threshold_fallback <= 1
  /\ match_embedding (1 / 2) 1 [(7%Z, [1])] [1] = Some 7%Z.
Proof.
  split; [exact match_unit_seven|].
  split; [unfold default_threshold_nn; lra|].
  split; [unfold default_threshold_fallback; lra|].
  apply (match_embedding_threshold_mono default_threshold_nn default_threshold_fallback
           (1 / 2) 1 [(7%Z, [1])] [1] 7%Z);
    [exact match_unit_seven | unfold default_threshold_nn; lra
    | unfold default_threshold_fallback; lra].
Defined.

End MatcherExtra.

(** ** The embedding store: prediction, enrolment, deletion and upload *)

Module ServiceExtra.

Import Matcher MatcherFacts MatcherClaims Service UploadScript Fixtures ServiceFacts.
Open Scope R_scope.

Lemma dict_set_in_inv {V : Type} (d : list (Z * V)) k0 v0 k v :
  In (k, v) (dict_set d k0 v0) -> (k = k0 /\ v = v0) \/ In (k, v) d.
Proof.
  induction d as [|[k' v'] d IH]; simpl.
  - intros [H|[]]. inversion H; subst. left; split; reflexivity.
  - destruct (Z.eqb k' k0).
    + intros [H|H]; [inversion H; subst; left; split; reflexivity|right; now right].
    + intros [H|H]; [right; now left|]. destruct (IH H) as [E|E]; [now left|right; now right].
Qed.

(** Every key of a dict built from rows is the key of one of the rows. *)
Lemma dict_of_keys {V : Type} (rows : list (Z * V)) k v :
  In (k, v) (dict_of rows) -> exists v', In (k, v') rows.
Proof.
  unfold dict_of.
  assert (Hgen : forall d, In (k, v) (fold_left (fun d p => dict_set d (fst p) (snd p)) rows d)
                           -> In (k, v) d \/ exists v', In (k, v') rows).
  { induction rows as [|[k1 v1] rows IH]; intros d H; simpl in *; [now left|].
    destruct (IH _ H) as [H'|(v' & Hv')].
    - destruct (dict_set_in_inv d k1 v1 k v H') as [[-> ->]|H''].
      + right. exists v1. now left.
      + now left.
    - right. exists v'. now right. }
  intro H. destruct (Hgen [] H) as [[]|E]. exact E.
Qed.

Lemma dict_set_fresh {V : Type} (d : list (Z * V)) k v :
  ~ In k (map fst d) -> dict_set d k v = app d [(k, v)].
Proof.
  induction d as [|[k' v'] d IH]; simpl; intro Hn; [reflexivity|].
  destruct (Z.eqb k' k) eqn:E.
  - apply Z.eqb_eq in E. exfalso. apply Hn. now left.
  - rewrite IH; [reflexivity|]. intro H. apply Hn. now right.
Qed.

(** On rows with distinct keys, building the dict keeps the rows. *)
Lemma dict_of_nodup {V : Type} (rows : list (Z * V)) :
  NoDup (map fst rows) -> dict_of rows = rows.
Proof.
  unfold dict_of.
  assert (Hgen : forall d, NoDup (map fst (app d rows)) ->
            fold_left (fun d p => dict_set d (fst p) (snd p)) rows d = app d rows).
  { induction rows as [|[k v] rows IH]; intros d Hnd; simpl.
    - now rewrite app_nil_r.
    - rewrite dict_set_fresh.
      + rewrite IH; [now rewrite <- app_assoc|]. now rewrite <- app_assoc.
      + rewrite map_app in Hnd. simpl in Hnd.
        apply NoDup_remove_2 in Hnd. rewrite in_app_iff in Hnd. tauto. }
  intro Hnd. apply Hgen. exact Hnd.
Qed.

Lemma dict_remove_keys {V : Type} (d : list (Z * V)) sid k v :
  In (k, v) (dict_remove d sid) -> k <> sid.
Proof.
  unfold dict_remove. rewrite filter_In. simpl. intros [_ H] E. subst.
  rewrite Z.eqb_refl in H. discriminate.
Qed.

(** X6: enrolling a photo into an empty store (local files only, cold
    cache; or a reachable remote table that starts empty) and then
    presenting the same image recognises the student exactly when the
    cosine distance of its embedding to itself is within the default
    threshold [0.35]. *)
Theorem enroll_then_recognize {raw image : Type} (env : Env raw image) (st : Store)
    (path : string) (sid : Z) (img : image) (e : vec) :
  has_cv2 env = true -> path <> ""%string ->
  imread env (resolve_path env path) = Some img ->
  compute_embedding env img = Some e ->
  (table st = None /\ emb_cache st = None /\ local_save_ok env = true /\ files st = [])
  \/ (table st = Some [] /\ remote_ok env = true) ->
  (fst (predict_student_id env (snd (enroll_from_path env st path sid)) img) = Some sid
   <-> cosine_dist e e <= default_threshold_nn).
Proof.
  intros Hcv Hp Hread He Hst.
  assert (Henr : enroll_from_path env st path sid =
    (true, let st1 := if local_save_ok env
                      then mkStore (dict_set (files st) sid e) (table st) (emb_cache st)
                      else st in
           match table st1 with
           | None => st1
           | Some t => if remote_ok env
                       then mkStore (files st1) (Some (dict_set t sid e)) None
                       else st1
           end)).
  { unfold enroll_from_path. rewrite Hcv.
    replace (String.eqb path "") with false by (symmetry; apply String.eqb_neq; exact Hp).
    simpl. rewrite Hread, He. reflexivity. }
  rewrite Henr. cbn [snd]. unfold predict_student_id, predict. rewrite He.
  destruct Hst as [(Ht & Hc & Hs & Hf) | (Ht & Hr)].
  - rewrite Hs. destruct st as [f t c]. simpl in Ht, Hc, Hf. subst. cbn.
    rewrite match_single_self_eq.
    destruct (Rlt_dec default_threshold_nn (cosine_dist e e)); split; intro H;
      try discriminate; try lra; reflexivity.
  - destruct st as [f t c]. cbn [table] in Ht. subst t.
    assert (Hload : forall F, load_cache env (mkStore F (Some [(sid, e)]) None)
                              = if Nat.eqb (List.length e) 0 then [] else [(sid, e)]).
    { intro F. unfold load_cache. cbn [table]. rewrite Hr. cbn [filter snd].
      destruct (Nat.eqb (List.length e) 0); reflexivity. }
    assert (Hgoal : forall F,
              fst (match_embedding default_threshold_nn default_threshold_fallback
                     (load_cache env (mkStore F (Some [(sid, e)]) None)) e,
                   mkStore F (Some [(sid, e)])
                     (Some (load_cache env (mkStore F (Some [(sid, e)]) None)))) = Some sid
              <-> cosine_dist e e <= default_threshold_nn).
    { intro F. rewrite Hload. cbn [fst].
      destruct (Nat.eqb (List.length e) 0) eqn:Hl.
      - apply Nat.eqb_eq, length_zero_iff_nil in Hl. subst e.
        rewrite cosine_dist_self.
        assert (E1 : eps / (sum_sq [] + eps) = 1) by (simpl; pose proof eps_pos; field; lra).
        rewrite E1. unfold match_embedding, accept, default_threshold_nn. simpl.
        split; [discriminate|lra].
      - rewrite match_single_self_eq.
        destruct (Rlt_dec default_threshold_nn (cosine_dist e e)); split; intro H;
          try discriminate; try lra; reflexivity. }
    destruct (local_save_ok env); cbn [table files emb_cache]; rewrite Hr; apply Hgoal.
Qed.

Lemma enroll_then_recognize_witness :
  has_cv2 (world true false) = true /\ "/uploads/7.jpg"%string <> ""%string
  /\ imread (world true false) (resolve_path (world true false) "/uploads/7.jpg") = Some 0%nat
  /\ compute_embedding (world true false) 0%nat = Some [1]
  /\ fst (predict_student_id (world true false)
            (snd (enroll_from_path (world true false) (mkStore [] None None)
                    "/uploads/7.jpg" 7%Z)) 0%nat) = Some 7%Z.
Proof.
  split; [reflexivity|]. split; [discriminate|]. split; [reflexivity|].
  split; [reflexivity|].
  apply (enroll_then_recognize (world true false) (mkStore [] None None)
           "/uploads/7.jpg" 7%Z 0%nat [1]);
    [reflexivity | discriminate | reflexivity | reflexivity
    | left; repeat split; reflexivity |].
  assert (Hs : 1 <= sum_sq [1]) by (simpl; lra).
  pose proof (cosine_dist_self_small [1] Hs). pose proof eps_small.
  unfold default_threshold_nn. lra.
Defined.

(** X7: with a cold cache, a student whose embedding has just been deleted
    is never recognised, whatever the thresholds and the frame, provided no
    remote table is configured, or the remote delete went through, or the
    later load does not reach the remote table; the delete ([env_del]) and
    the load ([env]) are separate calls that may meet different outcomes.
    When the remote delete fails (its error is swallowed) and the later
    select succeeds, the deleted row is reloaded and the student is
    recognised again. *)
Theorem deleted_not_recognized_cold {raw image : Type} :
  (forall (env_del env : Env raw image) (tn tf : R) (st : Store) (sid : Z) (frame : image),
     emb_cache st = None ->
     table st = None \/ remote_ok env_del = true \/ remote_ok env = false ->
     fst (predict env tn tf (delete_student_embedding env_del st sid) frame) <> Some sid)
  /\ fst (predict_student_id (world true true)
            (delete_student_embedding (world true false)
               (mkStore [(7%Z, [1])] (Some [(7%Z, [1])]) None) 7%Z) 0%nat) = Some 7%Z.
Proof.
  split.
  - intros env_del env tn tf st sid frame Hc Hcase. unfold predict.
    destruct (compute_embedding env frame) as [e|]; [|discriminate].
    unfold delete_student_embedding. cbn [emb_cache fst]. rewrite Hc.
    intro H. apply match_embedding_accepted in H as (d & m & (ref & Hin & _) & _).
    revert Hin. unfold load_cache. cbn [table files].
    destruct (table st) as [t|].
    + destruct (remote_ok env_del) eqn:Hd; cbn [table files];
        destruct (remote_ok env) eqn:Hr.
      * intro Hin. apply dict_of_keys in Hin as (v' & Hin).
        apply filter_In in Hin as [Hin _]. exact (dict_remove_keys _ _ _ _ Hin eq_refl).
      * intro Hin. apply dict_of_keys in Hin as (v' & Hin).
        exact (dict_remove_keys _ _ _ _ Hin eq_refl).
      * exfalso. destruct Hcase as [E|[E|E]]; discriminate.
      * intro Hin. apply dict_of_keys in Hin as (v' & Hin).
        exact (dict_remove_keys _ _ _ _ Hin eq_refl).
    + intro Hin. apply dict_of_keys in Hin as (v' & Hin).
      exact (dict_remove_keys _ _ _ _ Hin eq_refl).
  - apply predict_world_seven. reflexivity.
Qed.

Lemma deleted_not_recognized_cold_witness :
  emb_cache (mkStore [(7%Z, [1])] (Some [(7%Z, [1])]) None) = None
  /\ remote_ok (world true true) = true
  /\ fst (predict (world true true) default_threshold_nn default_threshold_fallback
            (delete_student_embedding (world true true)
               (mkStore [(7%Z, [1])] (Some [(7%Z, [1])]) None) 7%Z) 0%nat) <> Some 7%Z.
Proof.
  split; [reflexivity|]. split; [reflexivity|].
  destruct (@deleted_not_recognized_cold (list nat) nat) as [Hgen _].
  apply (Hgen (world true true) (world true true) default_threshold_nn
           default_threshold_fallback (mkStore [(7%Z, [1])] (Some [(7%Z, [1])]) None)
           7%Z 0%nat); [reflexivity|right; left; reflexivity].
Defined.

Lemma upload_loop {raw image : Type} (env : Env raw image) (l : list (Z * vec)) n t :
  remote_ok env = true ->
  fold_left (fun (acc : nat * list (Z * vec)) (f : Z * vec) =>
               if remote_ok env then (S (fst acc), dict_set (snd acc) (fst f) (snd f)) else acc)
            l (n, t)
  = ((n + List.length l)%nat, fold_left (fun d p => dict_set d (fst p) (snd p)) l t).
Proof.
  intro Hr. rewrite Hr. revert n t. induction l as [|f l IH]; intros n t; simpl.
  - now rewrite Nat.add_0_r.
  - rewrite IH. f_equal. lia.
Qed.

Lemma filter_nonempty_id (l : list (Z * vec)) :
  (forall k v, In (k, v) l -> v <> []) ->
  filter (fun p => negb (Nat.eqb (List.length (snd p)) 0)) l = l.
Proof.
  induction l as [|[k v] l IH]; simpl; intro H; [reflexivity|].
  destruct v as [|x v]; [exfalso; exact (H k [] (or_introl eq_refl) eq_refl)|].
  simpl. rewrite IH; [reflexivity|]. intros k' v' Hin. exact (H k' v' (or_intror Hin)).
Qed.

(** X8: with a reachable remote table that starts empty, uploading the
    local embedding files (distinct student ids, non-empty arrays) upserts
    every one of them and reports that count; afterwards the cache the
    service loads from the remote table is the same reference list, in the
    same order, as the one it loads from the local files. *)
Theorem upload_then_load {raw image : Type} (env : Env raw image) (st : Store) :
  table st = Some [] -> remote_ok env = true ->
  NoDup (map fst (files st)) -> (forall k v, In (k, v) (files st) -> v <> []) ->
  exists st', upload_embeddings env st = Some (List.length (files st), st')
              /\ files st' = files st
              /\ load_cache env st' = load_cache env (mkStore (files st) None None)
              /\ load_cache env st' = files st.
Proof.
  intros Ht Hr Hnd Hne. unfold upload_embeddings. rewrite Ht.
  rewrite (upload_loop env (files st) 0 [] Hr). simpl.
  eexists. split; [reflexivity|]. split; [reflexivity|].
  unfold load_cache. cbn [table files]. rewrite Hr.
  fold (dict_of (files st)). rewrite (dict_of_nodup (files st) Hnd).
  rewrite filter_nonempty_id by exact Hne.
  pose proof (dict_of_nodup (files st) Hnd) as Hid. split; exact Hid.
Qed.

Lemma upload_then_load_witness :
  table (mkStore [(7%Z, [1]); (8%Z, [0; 1])] (Some []) None) = Some []
  /\ remote_ok (world true true) = true
  /\ NoDup (map fst [(7%Z, [1]); (8%Z, [0; 1])])
  /\ (forall k v, In (k, v) [(7%Z, [1]); (8%Z, [0; 1])] -> v <> [])
  /\ exists st', upload_embeddings (world true true)
                   (mkStore [(7%Z, [1]); (8%Z, [0; 1])] (Some []) None) = Some (2%nat, st')
                 /\ load_cache (world true true) st' = [(7%Z, [1]); (8%Z, [0; 1])].
Proof.
  assert (Hnd : NoDup (map fst [(7%Z, [1]); (8%Z, [0; 1])])).
  { simpl. constructor; [simpl; intros [H|[]]; discriminate|].
    constructor; [simpl; tauto|constructor]. }
  assert (Hne : forall k v, In (k, v) [(7%Z, [1]); (8%Z, [0; 1])] -> v <> []).
  { intros k v [H|[H|[]]]; inversion H; discriminate. }
  split; [reflexivity|]. split; [reflexivity|]. split; [exact Hnd|]. split; [exact Hne|].
  destruct (upload_then_load (world true true)
              (mkStore [(7%Z, [1]); (8%Z, [0; 1])] (Some []) None)
              eq_refl eq_refl Hnd Hne) as (st' & Hup & _ & _ & Hload).
  exists st'. split; [exact Hup|exact Hload].
Defined.

End ServiceExtra.

(** ** The recognition endpoint and manual marking *)

Module EndpointExtra.

Import Matcher Service Schedule ScheduleFacts Endpoint.




(** X10: an authorised manual marking passes the field check exactly when
    the student and the subject are given and non-zero and a day is given
    (any value, 0 included, and otherwise unused); it is then committed
    without any duplicate check: when the commit succeeds one record for
    today is appended whatever the ledger already holds, and when it fails
    the handler answers 500 and the ledger is unchanged.  Any other request
    is answered "missing required fields" and leaves the ledger unchanged. *)
Theorem manual_attendance_validation (commit_ok : bool) (student_id day subject_id : option Z)
    (ledger : list AttRecord) (now : Now) :
  (exists s d j,
     student_id = Some s /\ s <> 0%Z /\ day = Some d /\ subject_id = Some j /\ j <> 0%Z
     /\ manual_attendance_handler commit_ok true student_id day subject_id ledger now
        = (if commit_ok then (MMarked, app ledger [mkAtt s (Some j) (now_date now)])
           else (MServerError, ledger))
     /\ count_records s j (now_date now)
          (snd (manual_attendance_handler commit_ok true student_id day subject_id ledger now))
        = ((if commit_ok then 1 else 0) + count_records s j (now_date now) ledger)%nat)
  \/ ((forall s d j, student_id = Some s -> day = Some d -> subject_id = Some j ->
                     s = 0%Z \/ j = 0%Z)
      /\ manual_attendance_handler commit_ok true student_id day subject_id ledger now
         = (MMissingFields, ledger)).
Proof.
  unfold manual_attendance_handler, manual_attendance. cbn [negb].
  destruct student_id as [s|]; [|right; split; [discriminate|reflexivity]].
  destruct day as [d|]; [|right; split; [discriminate|reflexivity]].
  destruct subject_id as [j|]; [|right; split; [discriminate|reflexivity]].
  unfold truthy_int. destruct (Z.eqb s 0) eqn:Hs, (Z.eqb j 0) eqn:Hj; cbn.
  - right. split; [|reflexivity]. intros s' d' j' E _ _. injection E as <-. left.
    now apply Z.eqb_eq.
  - right. split; [|reflexivity]. intros s' d' j' E _ _. injection E as <-. left.
    now apply Z.eqb_eq.
  - right. split; [|reflexivity]. intros s' d' j' _ _ E. injection E as <-. right.
    now apply Z.eqb_eq.
  - left. exists s, d, j. apply Z.eqb_neq in Hs, Hj.
    repeat split; auto.
    destruct commit_ok; cbn [snd]; [apply count_records_appended|reflexivity].
Qed.

Lemma manual_attendance_valid_append ledger s j d now :
  s <> 0%Z -> j <> 0%Z ->
  snd (manual_attendance true (Some s) (Some d) (Some j) ledger now)
  = app ledger [mkAtt s (Some j) (now_date now)].
Proof.
  intros Hs Hj. unfold manual_attendance, truthy_int. cbn [negb].
  apply Z.eqb_neq in Hs, Hj. rewrite Hs, Hj. reflexivity.
Qed.

(** X11: the manual and the face paths share the ledger but only the face
    path checks it: after a manual marking of a student for the subject the
    face flow would act on, the face flow answers "already marked" and adds
    nothing; after the face flow, a manual marking for the same subject adds
    a second record for the same day. *)
Theorem manual_and_face (db : Db) (ledger : list AttRecord) (s j d : Z) (now : Now) :
  s <> 0%Z -> j <> 0%Z ->
  (fst (resolve_and_decide db ledger s now) = AttendanceMarked s j
   \/ fst (resolve_and_decide db ledger s now) = AlreadyMarked s j) ->
  (let l1 := snd (manual_attendance true (Some s) (Some d) (Some j) ledger now) in
   resolve_and_decide db l1 s now = (AlreadyMarked s j, l1))
  /\ (2 <= count_records s j (now_date now)
             (snd (manual_attendance true (Some s) (Some d) (Some j)
                     (snd (resolve_and_decide db ledger s now)) now)))%nat.
Proof.
  intros Hs Hj Hface.
  destruct (resolve_and_decide_cases db s now) as [(dd & Hd & Hrun) | (j0 & Hrun)].
  - rewrite (Hrun ledger) in Hface. cbn [fst] in Hface.
    destruct (Hd j). exfalso. destruct Hface; contradiction.
  - assert (Hj0 : j0 = j).
    { rewrite (Hrun ledger) in Hface.
      destruct (existsb (is_record_of s j0 (now_date now)) ledger);
        cbn [fst] in Hface; destruct Hface as [E|E]; inversion E; reflexivity. }
    subst j0. split.
    + cbn zeta. rewrite (manual_attendance_valid_append ledger s j d now Hs Hj).
      rewrite (Hrun (app ledger _)), is_record_of_appended. reflexivity.
    + rewrite (manual_attendance_valid_append _ s j d now Hs Hj).
      rewrite count_records_appended.
      assert (Hpos : existsb (is_record_of s j (now_date now))
                       (snd (resolve_and_decide db ledger s now)) = true).
      { rewrite (Hrun ledger).
        destruct (existsb (is_record_of s j (now_date now)) ledger) eqn:E;
          [exact E | apply is_record_of_appended]. }
      apply count_records_pos in Hpos. lia.
Qed.

Lemma manual_and_face_witness :
  (1 <> 0)%Z /\ (3 <> 0)%Z
  /\ fst (resolve_and_decide (mkDb [1%Z] [3%Z] [mkSlot 1 0 "09:00" "10:00" 3]) [] 1
            (mkNow 20 0 "09:30")) = AttendanceMarked 1 3
  /\ resolve_and_decide (mkDb [1%Z] [3%Z] [mkSlot 1 0 "09:00" "10:00" 3])
       (snd (manual_attendance true (Some 1%Z) (Some 0%Z) (Some 3%Z) [] (mkNow 20 0 "09:30")))
       1 (mkNow 20 0 "09:30")
     = (AlreadyMarked 1 3,
        snd (manual_attendance true (Some 1%Z) (Some 0%Z) (Some 3%Z) [] (mkNow 20 0 "09:30"))).
Proof.
  split; [discriminate|]. split; [discriminate|]. split; [reflexivity|].
  apply (manual_and_face (mkDb [1%Z] [3%Z] [mkSlot 1 0 "09:00" "10:00" 3]) [] 1 3 0
           (mkNow 20 0 "09:30"));
    [discriminate | discriminate | left; reflexivity].
Defined.

End EndpointExtra.

(** ** Batched copy of the migration script *)

Module MigrateExtra.

Import MigrateScript.

(** The batches executed from a current batch [b]: full batches of 200,
    then possibly one last batch; what they hold is a prefix of [b ++ rows];
    all of it when the copy ended without error, and then the last batch
    is partial; otherwise the last batch executed is the one that failed. *)
Lemma copy_loop_spec {A : Type} (ok : list A -> bool) (b rows : list A) :
  (List.length b < batch_size)%nat ->
  exists full last,
    fst (copy_loop ok b rows) = app full last
    /\ Forall (fun x => List.length x = batch_size) full
    /\ Forall (fun x => ok x = true) full
    /\ (exists rest, app (List.concat (fst (copy_loop ok b rows))) rest = app b rows)
    /\ (snd (copy_loop ok b rows) = true ->
          List.concat (fst (copy_loop ok b rows)) = app b rows
          /\ (last = [] \/ exists l, last = [l] /\ (0 < List.length l < batch_size)%nat
                                     /\ ok l = true))
    /\ (snd (copy_loop ok b rows) = false -> exists l, last = [l] /\ ok l = false)
    /\ ((forall x, ok x = true) -> snd (copy_loop ok b rows) = true).
Proof.
  revert b. induction rows as [|r rows IH]; intros b Hb.
  - destruct b as [|x b'] eqn:Eb.
    + exists [], []. simpl. repeat split; auto.
      * exists []. reflexivity.
      * discriminate.
    + exists [], [x :: b']. cbn [copy_loop fst snd app].
      repeat split; auto.
      * exists []. simpl. now rewrite ?app_nil_r.
      * right. exists (x :: b'). repeat split; auto. simpl; lia.
      * intro Hko. exists (x :: b'). split; auto.
  - cbn [copy_loop].
    destruct (Nat.leb batch_size (List.length (app b [r]))) eqn:Hle.
    + apply Nat.leb_le in Hle.
      assert (Hfull : List.length (app b [r]) = batch_size)
        by (rewrite length_app in *; simpl in *; lia).
      destruct (ok (app b [r])) eqn:Hok.
      * destruct (IH [] ltac:(unfold batch_size; simpl; lia))
          as (full & last & Hf & Hl & Hokf & (rest & Hrest) & Hclean & Hfail & Hall).
        destruct (copy_loop ok [] rows) as [ex clean]. cbn [fst snd] in *.
        exists (app b [r] :: full), last. subst ex.
        split; [reflexivity|].
        split; [constructor; assumption|].
        split; [constructor; assumption|].
        split.
        -- exists rest. cbn [List.concat]. rewrite <- app_assoc, Hrest, <- app_assoc.
           reflexivity.
        -- split; [|split; [exact Hfail|exact Hall]].
           intro Hc. destruct (Hclean Hc) as [Hcat Hlast]. split; [|exact Hlast].
           cbn [List.concat]. rewrite Hcat, <- app_assoc. reflexivity.
      * exists [], [app b [r]]. cbn [fst snd app].
        split; [reflexivity|]. split; [constructor|]. split; [constructor|].
        split; [exists rows; simpl; rewrite app_nil_r, <- app_assoc; reflexivity|].
        split; [discriminate|].
        split; [intros _; exists (app b [r]); split; auto|].
        intro Hall'. rewrite Hall' in Hok. discriminate.
    + apply Nat.leb_gt in Hle.
      destruct (IH (app b [r]) Hle)
        as (full & last & Hf & Hl & Hokf & (rest & Hrest) & Hclean & Hfail & Hall).
      rewrite <- app_assoc in Hrest, Hclean. simpl in Hrest, Hclean.
      exists full, last.
      split; [exact Hf|]. split; [exact Hl|]. split; [exact Hokf|].
      split; [exists rest; exact Hrest|].
      split; [exact Hclean|]. split; [exact Hfail|exact Hall].
Qed.

Lemma concat_full_length {A : Type} (full : list (list A)) :
  Forall (fun b => List.length b = batch_size) full ->
  List.length (List.concat full) = (batch_size * List.length full)%nat.
Proof.
  induction 1 as [|b full Hb _ IH]; simpl; [lia|].
  rewrite length_app, Hb, IH. unfold batch_size. lia.
Qed.

(** X12: [copy_db] copies a table's rows in insert batches of 200: the rows
    of the executed batches, concatenated, are a prefix of the table's rows;
    when no insert fails it executes exactly [ceil(n / 200)] batches that
    concatenate to all [n] rows, every one but the last holding 200 rows;
    when an insert fails, that batch is the last one executed and the rows
    after it are never sent. *)
Theorem copy_table_batches {A : Type} (insert_ok : list A -> bool) (rows : list A) :
  (exists rest, app (List.concat (fst (copy_table insert_ok rows))) rest = rows)
  /\ ((forall b, insert_ok b = true) -> snd (copy_table insert_ok rows) = true)
  /\ (snd (copy_table insert_ok rows) = true ->
        List.concat (fst (copy_table insert_ok rows)) = rows
        /\ Forall (fun b => insert_ok b = true) (fst (copy_table insert_ok rows))
        /\ List.length (fst (copy_table insert_ok rows)) = ((List.length rows + 199) / 200)%nat
        /\ exists full last,
             fst (copy_table insert_ok rows) = app full last
             /\ Forall (fun b => List.length b = batch_size) full
             /\ (last = [] \/ exists l, last = [l] /\ (0 < List.length l < batch_size)%nat))
  /\ (snd (copy_table insert_ok rows) = false ->
        exists done failed,
          fst (copy_table insert_ok rows) = app done [failed]
          /\ Forall (fun b => insert_ok b = true) done /\ insert_ok failed = false).
Proof.
  unfold copy_table.
  destruct (copy_loop_spec insert_ok [] rows ltac:(unfold batch_size; simpl; lia))
    as (full & last & Hf & Hl & Hokf & Hprefix & Hclean & Hfail & Hall).
  split; [exact Hprefix|]. split; [exact Hall|]. split.
  - intro Hc. destruct (Hclean Hc) as [Hcat Hlast]. cbn [app] in Hcat.
    split; [exact Hcat|]. rewrite Hf in Hcat |- *.
    pose proof (concat_full_length full Hl) as Hlen.
    split.
    { apply Forall_app. split; [exact Hokf|].
      destruct Hlast as [->|(l & -> & _ & Hok)]; [constructor|].
      constructor; [exact Hok|constructor]. }
    split.
    + rewrite <- Hcat, concat_app, !length_app, Hlen. unfold batch_size in *.
      destruct Hlast as [->|(l & -> & Hl1)].
      * cbn [List.concat List.length]. apply Nat.div_unique with (r := 199%nat); lia.
      * cbn [List.concat List.length] in *. rewrite app_nil_r.
        apply Nat.div_unique with (r := (List.length l - 1)%nat); lia.
    + exists full, last. split; [reflexivity|]. split; [exact Hl|].
      destruct Hlast as [->|(l & -> & Hl1 & _)]; [now left|right; exists l; auto].
  - intro Hc. destruct (Hfail Hc) as (l & -> & Hko).
    exists full, l. auto.
Qed.

(** 450 rows whose second insert fails: two inserts are executed, of 200
    rows each, and the last 50 rows are never sent. *)
Lemma copy_table_batches_witness :
  let ok := fun b : list nat => negb (Nat.eqb (hd 0%nat b) 200) in
  map (@List.length nat) (fst (copy_table ok (seq 0 450))) = [200; 200]%nat
  /\ snd (copy_table ok (seq 0 450)) = false
  /\ (snd (copy_table ok (seq 0 450)) = false ->
        exists done failed,
          fst (copy_table ok (seq 0 450)) = app done [failed]
          /\ Forall (fun b => ok b = true) done /\ ok failed = false).
Proof.
  intro ok. split; [vm_compute; reflexivity|]. split; [vm_compute; reflexivity|].
  exact (proj2 (proj2 (proj2 (copy_table_batches ok (seq 0 450))))).
Defined.

End MigrateExtra.
